(** * Concept explainer: ownership-scoped CRUD actions over four tables

    A shallow embedding of the action handlers (createConcept ... listJobs)
    and of the table definitions they work on.  The persistent store is
    modelled as a record of row lists in storage order, one list per
    table, together with the readings of the clock; a write that breaks
    a reference to a concept is refused by the store.  Handlers are
    state-and-error computations over that record. *)

From Stdlib Require Import ZArith List String Bool Lia.
Import ListNotations.
Local Open Scope string_scope.
Local Open Scope list_scope.
Local Open Scope Z_scope.
Local Set Warnings "-register-all".

(** ** Values *)

(** A [Date] is a point in time, in milliseconds. *)
Definition Date := Z.

(** Opaque structured values ([z.any()] inputs, [column.json] columns).
    [JNull] is the JavaScript [null], which is also what a JSON column
    that was never written reads back as. *)
Inductive Json : Type :=
| JNull
| JBool (b : bool)
| JNum (n : Z)
| JStr (s : string)
| JArr (xs : list Json)
| JObj (kvs : list (string * Json)).

(** An optional input field: [None] is JavaScript's [undefined]. *)
Definition Optional (A : Type) := option A.

(** [a ?? d] *)
Definition nullish {A : Type} (a : Optional A) (d : A) : A :=
  match a with
  | Some v => v
  | None => d
  end.
Notation "a ?? d" := (nullish a d) (at level 45, left associativity).

(** What an UPDATE leaves in a nullable column: the new value when one
    is given, the stored one otherwise. *)
Definition over {A : Type} (new : Optional A) (old : option A) : option A :=
  match new with
  | Some v => Some v
  | None => old
  end.

(** [input?.field] on an optional input object. *)
Definition optChain {I A : Type} (i : Optional I) (f : I -> Optional A)
  : Optional A :=
  match i with
  | Some x => f x
  | None => None
  end.

(** Truthiness of an optional number, as tested by [if (input.id)]:
    [undefined] and [0] are falsy.  The result carries the number for the
    branch that uses it. *)
Definition truthyNumber (a : Optional Z) : option Z :=
  match a with
  | Some n => if n =? 0 then None else Some n
  | None => None
  end.

(** Truthiness of an optional string: [undefined] and the empty string are
    falsy. *)
Definition truthyString (a : Optional string) : option string :=
  match a with
  | Some s => if String.eqb s "" then None else Some s
  | None => None
  end.

(** Truthiness of a nullable number column ([job.conceptId ? .. : ..]). *)
Definition truthyColumn (a : option Z) : option Z := truthyNumber a.

(** [===] between a nullable text column and a string. *)
Definition strictEqText (col : option string) (s : string) : bool :=
  match col with
  | Some c => String.eqb c s
  | None => false
  end.

(** ** Enumerations of the schema *)

Inductive Difficulty := beginner | intermediate | advanced.
Inductive ConceptStatus := draft | published | archived.
Inductive StepType :=
| st_intro | st_intuition | st_definition | st_example | st_analogy
| st_summary | st_other.
Inductive CheckType :=
| single_choice | multiple_choice | true_false | short_text.
Inductive JobType :=
| explain_like_5 | step_breakdown | jt_analogy | jt_summary | jt_other.
Inductive JobStatus := pending | completed | failed.

Definition ConceptStatus_eqb (a b : ConceptStatus) : bool :=
  match a, b with
  | draft, draft | published, published | archived, archived => true
  | _, _ => false
  end.

Definition JobStatus_eqb (a b : JobStatus) : bool :=
  match a, b with
  | pending, pending | completed, completed | failed, failed => true
  | _, _ => false
  end.

(** ** Rows of the four tables *)

Module Concepts.
Record row := mk {
  id : Z;
  ownerId : string;
  title : string;
  description : option string;
  subject : option string;
  topic : option string;
  tags : option string;
  difficulty : Difficulty;
  status : ConceptStatus;
  createdAt : Date;
  updatedAt : Date
}.

(** The object handed to [.set(..)]: a partial row.  A key that is
    missing, or present with the value [undefined], is [None]; the
    update builder leaves such a column as it is stored. *)
Record set := mkSet {
  set_title : Optional string;
  set_description : Optional string;
  set_subject : Optional string;
  set_topic : Optional string;
  set_tags : Optional string;
  set_difficulty : Optional Difficulty;
  set_status : Optional ConceptStatus;
  set_updatedAt : Optional Date
}.

Definition apply (s : set) (r : row) : row :=
  {| id := id r;
     ownerId := ownerId r;
     title := set_title s ?? title r;
     description := over (set_description s) (description r);
     subject := over (set_subject s) (subject r);
     topic := over (set_topic s) (topic r);
     tags := over (set_tags s) (tags r);
     difficulty := set_difficulty s ?? difficulty r;
     status := set_status s ?? status r;
     createdAt := createdAt r;
     updatedAt := set_updatedAt s ?? updatedAt r |}.
End Concepts.

Module ConceptSteps.
Record row := mk {
  id : Z;
  conceptId : Z;
  stepNumber : Z;
  stepType : StepType;
  heading : option string;
  content : string;
  example : option string;
  analogy : option string;
  createdAt : Date
}.

(** [baseValues] of saveStep, used both as the values of an insert and
    as the object handed to [.set(..)]. *)
Record values := mkValues {
  v_conceptId : Z;
  v_stepNumber : Z;
  v_stepType : StepType;
  v_heading : Optional string;
  v_content : string;
  v_example : Optional string;
  v_analogy : Optional string
}.

(** [.set(baseValues)]: [db] is a Drizzle client, whose update builder
    leaves the keys whose value is [undefined] out of the UPDATE
    statement (a column is cleared only by an explicit [null], which
    the input schema cannot produce), so such a column keeps its stored
    value.  conceptId, stepNumber, stepType and content are never
    [undefined] in [baseValues]. *)
Definition apply (v : values) (r : row) : row :=
  {| id := id r;
     conceptId := v_conceptId v;
     stepNumber := v_stepNumber v;
     stepType := v_stepType v;
     heading := over (v_heading v) (heading r);
     content := v_content v;
     example := over (v_example v) (example r);
     analogy := over (v_analogy v) (analogy r);
     createdAt := createdAt r |}.

(** [.values(baseValues)] of an insert: an [undefined] value stores the
    column's default, NULL for the optional text columns and NOW for
    createdAt. *)
Definition fresh (v : values) (now : Date) (i : Z) : row :=
  {| id := i;
     conceptId := v_conceptId v;
     stepNumber := v_stepNumber v;
     stepType := v_stepType v;
     heading := v_heading v;
     content := v_content v;
     example := v_example v;
     analogy := v_analogy v;
     createdAt := now |}.
End ConceptSteps.

Module ConceptChecks.
Record row := mk {
  id : Z;
  conceptId : Z;
  question : string;
  options : Json;
  correctAnswer : Json;
  explanation : option string;
  type : CheckType;
  createdAt : Date
}.

Record values := mkValues {
  v_conceptId : Z;
  v_question : string;
  v_options : Optional Json;
  v_correctAnswer : Optional Json;
  v_explanation : Optional string;
  v_type : CheckType
}.

Definition apply (v : values) (r : row) : row :=
  {| id := id r;
     conceptId := v_conceptId v;
     question := v_question v;
     options := v_options v ?? options r;
     correctAnswer := v_correctAnswer v ?? correctAnswer r;
     explanation := over (v_explanation v) (explanation r);
     type := v_type v;
     createdAt := createdAt r |}.

Definition fresh (v : values) (now : Date) (i : Z) : row :=
  {| id := i;
     conceptId := v_conceptId v;
     question := v_question v;
     options := v_options v ?? JNull;
     correctAnswer := v_correctAnswer v ?? JNull;
     explanation := v_explanation v;
     type := v_type v;
     createdAt := now |}.
End ConceptChecks.

Module ConceptJobs.
Record row := mk {
  id : Z;
  conceptId : option Z;
  ownerId : string;
  jobType : JobType;
  input : Json;
  output : Json;
  status : JobStatus;
  createdAt : Date
}.

(** The declared column default of [status]. *)
Definition status_default : JobStatus := completed.
(** The declared column default of [jobType]. *)
Definition jobType_default : JobType := step_breakdown.

(** [updateData] of updateJob. *)
Record set := mkSet {
  set_output : Optional Json;
  set_status : Optional JobStatus
}.

Definition apply (s : set) (r : row) : row :=
  {| id := id r;
     conceptId := conceptId r;
     ownerId := ownerId r;
     jobType := jobType r;
     input := input r;
     output := set_output s ?? output r;
     status := set_status s ?? status r;
     createdAt := createdAt r |}.
End ConceptJobs.

(** ** The store *)

(** The four tables, each in storage order, and the time.  [readings d n]
    is what the [n]-th evaluation of [new Date()] gives in the request
    that runs on [d]: two evaluations in one request need not agree.
    Nothing else is kept: the store has no id counter of its own. *)
Record Db := mkDb {
  tConcepts : list Concepts.row;
  tConceptSteps : list ConceptSteps.row;
  tConceptChecks : list ConceptChecks.row;
  tConceptJobs : list ConceptJobs.row;
  readings : nat -> Date
}.

(** The time at which a request on [d] first reads the clock. *)
Definition clock (d : Db) : Date := readings d 0.

(** The store before anything was written, at time [t]. *)
Definition emptyDb (t : Date) : Db :=
  mkDb [] [] [] [] (fun _ => t).

(** [references: () => Concepts.columns.id]: some stored concept has
    id [i]. *)
Definition Concepts_has_id (d : Db) (i : Z) : bool :=
  existsb (fun c => Concepts.id c =? i) (tConcepts d).

(** The foreign keys of the rows of each table; a conceptId that is
    NULL refers to nothing. *)
Definition Concepts_references (d : Db) (c : Concepts.row) : bool := true.

Definition ConceptSteps_references (d : Db) (s : ConceptSteps.row) : bool :=
  Concepts_has_id d (ConceptSteps.conceptId s).

Definition ConceptChecks_references (d : Db) (k : ConceptChecks.row) : bool :=
  Concepts_has_id d (ConceptChecks.conceptId k).

Definition ConceptJobs_references (d : Db) (j : ConceptJobs.row) : bool :=
  match ConceptJobs.conceptId j with
  | Some c => Concepts_has_id d c
  | None => true
  end.

(** A table of the store: how to read its rows and how to write them
    back, its primary key, and its foreign keys. *)
Record Table (R : Type) := mkTable {
  rows : Db -> list R;
  store : Db -> list R -> Db;
  key : R -> Z;
  references : Db -> R -> bool
}.
Arguments rows {R} _ _.
Arguments store {R} _ _ _.
Arguments key {R} _ _.
Arguments references {R} _ _ _.

Definition Concepts_table : Table Concepts.row :=
  mkTable _ tConcepts
    (fun d t =>
       mkDb t (tConceptSteps d) (tConceptChecks d) (tConceptJobs d)
            (readings d))
    Concepts.id Concepts_references.

Definition ConceptSteps_table : Table ConceptSteps.row :=
  mkTable _ tConceptSteps
    (fun d t =>
       mkDb (tConcepts d) t (tConceptChecks d) (tConceptJobs d)
            (readings d))
    ConceptSteps.id ConceptSteps_references.

Definition ConceptChecks_table : Table ConceptChecks.row :=
  mkTable _ tConceptChecks
    (fun d t =>
       mkDb (tConcepts d) (tConceptSteps d) t (tConceptJobs d)
            (readings d))
    ConceptChecks.id ConceptChecks_references.

Definition ConceptJobs_table : Table ConceptJobs.row :=
  mkTable _ tConceptJobs
    (fun d t =>
       mkDb (tConcepts d) (tConceptSteps d) (tConceptChecks d) t
            (readings d))
    ConceptJobs.id ConceptJobs_references.

(** ** Actions: state and error *)

Inductive ErrorCode := UNAUTHORIZED | NOT_FOUND.

Record ActionError := mkError {
  code : ErrorCode;
  message : string
}.

(** What the store itself throws: a write that breaks a foreign key is
    refused. *)
Inductive StoreError := FOREIGN_KEY.

(** The outcome of a handler: a value, an [ActionError] thrown by the
    handler, or an error of the store that the handler lets through. *)
Inductive Result (A : Type) : Type :=
| Ok (a : A)
| Err (e : ActionError)
| Fault (e : StoreError).
Arguments Ok {A} a.
Arguments Err {A} e.
Arguments Fault {A} e.

Definition Action (A : Type) : Type := Db -> Result A * Db.

Definition ret {A : Type} (a : A) : Action A := fun d => (Ok a, d).

Definition throw {A : Type} (e : ActionError) : Action A :=
  fun d => (Err e, d).

Definition bind {A B : Type} (m : Action A) (k : A -> Action B) : Action B :=
  fun d =>
    match m d with
    | (Ok a, d') => k a d'
    | (Err e, d') => (Err e, d')
    | (Fault e, d') => (Fault e, d')
    end.

Notation "x <- m ;; k" := (bind m (fun x => k))
  (at level 61, m at next level, right associativity).

(** [new Date()], evaluated for the first time in a request. *)
Definition newDate : Action Date := fun d => (Ok (clock d), d).

(** [new Date()], evaluated for the [n]-th time after the first. *)
Definition newDateAgain (n : nat) : Action Date :=
  fun d => (Ok (readings d n), d).

(** [db.select().from(T).where(p)] *)
Definition select {R : Type} (T : Table R) (p : R -> bool) : Action (list R) :=
  fun d => (Ok (filter p (rows T d)), d).

(** [.limit(n)] on the rows a select produced. *)
Definition limit {R : Type} (n : nat) (m : Action (list R)) : Action (list R) :=
  rs <- m ;; ret (firstn n rs).

(** [db.update(T).set(s).where(p).returning()], for a [set] that writes
    no referencing column: every row that satisfies [p] is rewritten in
    place, and the rewritten rows are returned. *)
Definition update {R : Type} (T : Table R) (s : R -> R) (p : R -> bool)
  : Action (list R) :=
  fun d =>
    (Ok (map s (filter p (rows T d))),
     store T d (map (fun r => if p r then s r else r) (rows T d))).

(** The same for a [set] that writes a referencing column: the store
    refuses the statement, writing nothing, when a rewritten row would
    refer to no stored row. *)
Definition updateRef {R : Type} (T : Table R) (s : R -> R) (p : R -> bool)
  : Action (list R) :=
  fun d =>
    if forallb (fun r => references T d (s r)) (filter p (rows T d))
    then update T s p d
    else (Fault FOREIGN_KEY, d).

(** [db.delete(T).where(p).returning()]; only steps and checks are
    deleted, and no row refers to them. *)
Definition delete {R : Type} (T : Table R) (p : R -> bool) : Action (list R) :=
  fun d =>
    (Ok (filter p (rows T d)),
     store T d (filter (fun r => negb (p r)) (rows T d))).

(** The id the store gives to a row inserted without one: one more than
    the largest id in the table, and 1 in an empty table.  The id of a
    deleted last row is given out again. *)
Definition nextId (ids : list Z) : Z :=
  match ids with
  | [] => 1
  | i :: rest => fold_left Z.max rest i + 1
  end.

(** [db.insert(T).values(v).returning()]: the new row gets the next id
    and is stored after the existing rows, unless it refers to a row
    that is not stored: then the store refuses it and nothing is
    written. *)
Definition insert {R : Type} (T : Table R) (v : Z -> R) : Action (list R) :=
  fun d =>
    let r := v (nextId (map (key T) (rows T d))) in
    if references T d r
    then (Ok [r], store T d (rows T d ++ [r]))
    else (Fault FOREIGN_KEY, d).

(** [const [x] = rows]: [undefined] when there is no row. *)
Definition first {R : Type} (rs : list R) : option R := hd_error rs.

(** ** Request context and the authorization guard *)

Module User.
Record t := mk { id : string }.
End User.

Record Locals := mkLocals { user : option User.t }.
Record ActionAPIContext := mkContext { locals : option Locals }.

Definition unauthorized : ActionError :=
  mkError UNAUTHORIZED "You must be signed in to perform this action.".

Definition notFound (what : string) : ActionError :=
  mkError NOT_FOUND (what ++ " not found.")%string.

Definition requireUser (context : ActionAPIContext) : Action User.t :=
  match optChain (locals context) user with
  | None => throw unauthorized
  | Some u => ret u
  end.

(** The context of a request made by the signed-in user [u]. *)
Definition signedIn (u : User.t) : ActionAPIContext :=
  mkContext (Some (mkLocals (Some u))).

(** ** Where clauses *)

Definition Concepts_id_owner (i : Z) (o : string) (c : Concepts.row) : bool :=
  (Concepts.id c =? i) && String.eqb (Concepts.ownerId c) o.

Definition Concepts_owner (o : string) (c : Concepts.row) : bool :=
  String.eqb (Concepts.ownerId c) o.

Definition ConceptSteps_id (i : Z) (s : ConceptSteps.row) : bool :=
  ConceptSteps.id s =? i.

Definition ConceptSteps_concept (c : Z) (s : ConceptSteps.row) : bool :=
  ConceptSteps.conceptId s =? c.

Definition ConceptSteps_id_concept (i c : Z) (s : ConceptSteps.row) : bool :=
  (ConceptSteps.id s =? i) && (ConceptSteps.conceptId s =? c).

Definition ConceptChecks_id (i : Z) (k : ConceptChecks.row) : bool :=
  ConceptChecks.id k =? i.

Definition ConceptChecks_concept (c : Z) (k : ConceptChecks.row) : bool :=
  ConceptChecks.conceptId k =? c.

Definition ConceptChecks_id_concept (i c : Z) (k : ConceptChecks.row) : bool :=
  (ConceptChecks.id k =? i) && (ConceptChecks.conceptId k =? c).

Definition ConceptJobs_id (i : Z) (j : ConceptJobs.row) : bool :=
  ConceptJobs.id j =? i.

Definition ConceptJobs_owner (o : string) (j : ConceptJobs.row) : bool :=
  String.eqb (ConceptJobs.ownerId j) o.

Definition ConceptJobs_id_owner (i : Z) (o : string) (j : ConceptJobs.row)
  : bool :=
  (ConceptJobs.id j =? i) && String.eqb (ConceptJobs.ownerId j) o.

(** ** Concept actions *)

Module CreateConcept.
Record input := mk {
  title : string;
  description : Optional string;
  subject : Optional string;
  topic : Optional string;
  tags : Optional string;
  difficulty : Optional Difficulty;
  status : Optional ConceptStatus
}.
End CreateConcept.

Definition createConcept (input : CreateConcept.input)
  (context : ActionAPIContext) : Action (option Concepts.row) :=
  user <- requireUser context ;;
  created <- newDate ;;
  updated <- newDateAgain 1 ;;
  inserted <- insert Concepts_table (fun i =>
    {| Concepts.id := i;
       Concepts.ownerId := User.id user;
       Concepts.title := CreateConcept.title input;
       Concepts.description := CreateConcept.description input;
       Concepts.subject := CreateConcept.subject input;
       Concepts.topic := CreateConcept.topic input;
       Concepts.tags := CreateConcept.tags input;
       Concepts.difficulty := CreateConcept.difficulty input ?? beginner;
       Concepts.status := CreateConcept.status input ?? draft;
       Concepts.createdAt := created;
       Concepts.updatedAt := updated |}) ;;
  ret (first inserted).

Module UpdateConcept.
Record input := mk {
  id : Z;
  title : Optional string;
  description : Optional string;
  subject : Optional string;
  topic : Optional string;
  tags : Optional string;
  difficulty : Optional Difficulty;
  status : Optional ConceptStatus
}.
End UpdateConcept.

(** The loop over [Object.entries(rest)]: every entry whose value is not
    [undefined] is copied. *)
Definition updateData (input : UpdateConcept.input) : Concepts.set :=
  {| Concepts.set_title := UpdateConcept.title input;
     Concepts.set_description := UpdateConcept.description input;
     Concepts.set_subject := UpdateConcept.subject input;
     Concepts.set_topic := UpdateConcept.topic input;
     Concepts.set_tags := UpdateConcept.tags input;
     Concepts.set_difficulty := UpdateConcept.difficulty input;
     Concepts.set_status := UpdateConcept.status input;
     Concepts.set_updatedAt := None |}.

Definition present {A : Type} (a : Optional A) : nat :=
  match a with
  | Some _ => 1%nat
  | None => 0%nat
  end.

(** [Object.keys(updateData).length] *)
Definition Concepts_keys_length (s : Concepts.set) : nat :=
  (present (Concepts.set_title s) + present (Concepts.set_description s)
   + present (Concepts.set_subject s) + present (Concepts.set_topic s)
   + present (Concepts.set_tags s) + present (Concepts.set_difficulty s)
   + present (Concepts.set_status s) + present (Concepts.set_updatedAt s))%nat.

(** [{ ...updateData, updatedAt: now }] *)
Definition withUpdatedAt (s : Concepts.set) (now : Date) : Concepts.set :=
  {| Concepts.set_title := Concepts.set_title s;
     Concepts.set_description := Concepts.set_description s;
     Concepts.set_subject := Concepts.set_subject s;
     Concepts.set_topic := Concepts.set_topic s;
     Concepts.set_tags := Concepts.set_tags s;
     Concepts.set_difficulty := Concepts.set_difficulty s;
     Concepts.set_status := Concepts.set_status s;
     Concepts.set_updatedAt := Some now |}.

Definition updateConcept (input : UpdateConcept.input)
  (context : ActionAPIContext) : Action (option Concepts.row) :=
  user <- requireUser context ;;
  let id := UpdateConcept.id input in
  found <- limit 1 (select Concepts_table (Concepts_id_owner id (User.id user))) ;;
  match first found with
  | None => throw (notFound "Concept")
  | Some existing =>
      let data := updateData input in
      if (Concepts_keys_length data =? 0)%nat then ret (Some existing)
      else
        now <- newDate ;;
        updated <- update Concepts_table
                     (Concepts.apply (withUpdatedAt data now))
                     (Concepts_id_owner id (User.id user)) ;;
        ret (first updated)
  end.

Definition archiveSet (now : Date) : Concepts.set :=
  {| Concepts.set_title := None;
     Concepts.set_description := None;
     Concepts.set_subject := None;
     Concepts.set_topic := None;
     Concepts.set_tags := None;
     Concepts.set_difficulty := None;
     Concepts.set_status := Some archived;
     Concepts.set_updatedAt := Some now |}.

Definition archiveConcept (id : Z) (context : ActionAPIContext)
  : Action Concepts.row :=
  user <- requireUser context ;;
  now <- newDate ;;
  updated <- update Concepts_table (Concepts.apply (archiveSet now))
               (Concepts_id_owner id (User.id user)) ;;
  match first updated with
  | None => throw (notFound "Concept")
  | Some concept => ret concept
  end.

Module ListMyConcepts.
Record input := mk {
  status : Optional ConceptStatus;
  subject : Optional string;
  topic : Optional string
}.
End ListMyConcepts.

Definition listMyConcepts (input : Optional ListMyConcepts.input)
  (context : ActionAPIContext) : Action (list Concepts.row) :=
  user <- requireUser context ;;
  concepts <- select Concepts_table (Concepts_owner (User.id user)) ;;
  let filtered := filter (fun concept =>
    let matchesStatus :=
      match optChain input ListMyConcepts.status with
      | Some s => ConceptStatus_eqb (Concepts.status concept) s
      | None => true
      end in
    let matchesSubject :=
      match truthyString (optChain input ListMyConcepts.subject) with
      | Some s => strictEqText (Concepts.subject concept) s
      | None => true
      end in
    let matchesTopic :=
      match truthyString (optChain input ListMyConcepts.topic) with
      | Some s => strictEqText (Concepts.topic concept) s
      | None => true
      end in
    matchesStatus && matchesSubject && matchesTopic) concepts in
  ret filtered.

Record ConceptWithDetails := mkDetails {
  concept : Concepts.row;
  steps : list ConceptSteps.row;
  checks : list ConceptChecks.row
}.

Definition getConceptWithDetails (id : Z) (context : ActionAPIContext)
  : Action ConceptWithDetails :=
  user <- requireUser context ;;
  found <- limit 1 (select Concepts_table (Concepts_id_owner id (User.id user))) ;;
  match first found with
  | None => throw (notFound "Concept")
  | Some c =>
      ss <- select ConceptSteps_table (ConceptSteps_concept id) ;;
      ks <- select ConceptChecks_table (ConceptChecks_concept id) ;;
      ret (mkDetails c ss ks)
  end.

(** ** Step actions *)

(** The column default [NOW], filled in by the store for a createdAt
    that an insert does not give: the time of the store in whole
    seconds. *)
Definition NOW : Action Date := fun d => (Ok (clock d / 1000 * 1000), d).

Module SaveStep.
Record input := mk {
  id : Optional Z;
  conceptId : Z;
  stepNumber : Optional Z;
  stepType : Optional StepType;
  heading : Optional string;
  content : string;
  example : Optional string;
  analogy : Optional string
}.
End SaveStep.

Definition Step_baseValues (input : SaveStep.input) : ConceptSteps.values :=
  {| ConceptSteps.v_conceptId := SaveStep.conceptId input;
     ConceptSteps.v_stepNumber := SaveStep.stepNumber input ?? 1;
     ConceptSteps.v_stepType := SaveStep.stepType input ?? st_other;
     ConceptSteps.v_heading := SaveStep.heading input;
     ConceptSteps.v_content := SaveStep.content input;
     ConceptSteps.v_example := SaveStep.example input;
     ConceptSteps.v_analogy := SaveStep.analogy input |}.

Definition saveStep (input : SaveStep.input) (context : ActionAPIContext)
  : Action (option ConceptSteps.row) :=
  user <- requireUser context ;;
  owned <- limit 1 (select Concepts_table
             (Concepts_id_owner (SaveStep.conceptId input) (User.id user))) ;;
  match first owned with
  | None => throw (notFound "Concept")
  | Some _ =>
      let baseValues := Step_baseValues input in
      match truthyNumber (SaveStep.id input) with
      | Some id =>
          found <- limit 1 (select ConceptSteps_table (ConceptSteps_id id)) ;;
          match first found with
          | None => throw (notFound "Step")
          | Some existing =>
              if negb (ConceptSteps.conceptId existing =? SaveStep.conceptId input)
              then throw (notFound "Step")
              else
                updated <- updateRef ConceptSteps_table
                             (ConceptSteps.apply baseValues)
                             (ConceptSteps_id id) ;;
                ret (first updated)
          end
      | None =>
          now <- NOW ;;
          inserted <- insert ConceptSteps_table
                        (ConceptSteps.fresh baseValues now) ;;
          ret (first inserted)
      end
  end.

Module DeleteStep.
Record input := mk { id : Z; conceptId : Z }.
End DeleteStep.

Definition deleteStep (input : DeleteStep.input) (context : ActionAPIContext)
  : Action ConceptSteps.row :=
  user <- requireUser context ;;
  owned <- limit 1 (select Concepts_table
             (Concepts_id_owner (DeleteStep.conceptId input) (User.id user))) ;;
  match first owned with
  | None => throw (notFound "Concept")
  | Some _ =>
      removed <- delete ConceptSteps_table
                   (ConceptSteps_id_concept (DeleteStep.id input)
                                            (DeleteStep.conceptId input)) ;;
      match first removed with
      | None => throw (notFound "Step")
      | Some deleted => ret deleted
      end
  end.

(** ** Check actions *)

Module SaveCheck.
Record input := mk {
  id : Optional Z;
  conceptId : Z;
  question : string;
  options : Optional Json;
  correctAnswer : Optional Json;
  explanation : Optional string;
  type : Optional CheckType
}.
End SaveCheck.

Definition Check_baseValues (input : SaveCheck.input) : ConceptChecks.values :=
  {| ConceptChecks.v_conceptId := SaveCheck.conceptId input;
     ConceptChecks.v_question := SaveCheck.question input;
     ConceptChecks.v_options := SaveCheck.options input;
     ConceptChecks.v_correctAnswer := SaveCheck.correctAnswer input;
     ConceptChecks.v_explanation := SaveCheck.explanation input;
     ConceptChecks.v_type := SaveCheck.type input ?? single_choice |}.

Definition saveCheck (input : SaveCheck.input) (context : ActionAPIContext)
  : Action (option ConceptChecks.row) :=
  user <- requireUser context ;;
  owned <- limit 1 (select Concepts_table
             (Concepts_id_owner (SaveCheck.conceptId input) (User.id user))) ;;
  match first owned with
  | None => throw (notFound "Concept")
  | Some _ =>
      let baseValues := Check_baseValues input in
      match truthyNumber (SaveCheck.id input) with
      | Some id =>
          found <- limit 1 (select ConceptChecks_table (ConceptChecks_id id)) ;;
          match first found with
          | None => throw (notFound "Check")
          | Some existing =>
              if negb (ConceptChecks.conceptId existing =? SaveCheck.conceptId input)
              then throw (notFound "Check")
              else
                updated <- updateRef ConceptChecks_table
                             (ConceptChecks.apply baseValues)
                             (ConceptChecks_id id) ;;
                ret (first updated)
          end
      | None =>
          now <- NOW ;;
          inserted <- insert ConceptChecks_table
                        (ConceptChecks.fresh baseValues now) ;;
          ret (first inserted)
      end
  end.

Module DeleteCheck.
Record input := mk { id : Z; conceptId : Z }.
End DeleteCheck.

Definition deleteCheck (input : DeleteCheck.input) (context : ActionAPIContext)
  : Action ConceptChecks.row :=
  user <- requireUser context ;;
  owned <- limit 1 (select Concepts_table
             (Concepts_id_owner (DeleteCheck.conceptId input) (User.id user))) ;;
  match first owned with
  | None => throw (notFound "Concept")
  | Some _ =>
      removed <- delete ConceptChecks_table
                   (ConceptChecks_id_concept (DeleteCheck.id input)
                                             (DeleteCheck.conceptId input)) ;;
      match first removed with
      | None => throw (notFound "Check")
      | Some deleted => ret deleted
      end
  end.

(** ** Job actions *)

Module CreateJob.
Record input := mk {
  conceptId : Optional Z;
  jobType : Optional JobType;
  input_ : Optional Json;
  output : Optional Json;
  status : Optional JobStatus
}.
End CreateJob.

Definition createJob (input : CreateJob.input) (context : ActionAPIContext)
  : Action (option ConceptJobs.row) :=
  user <- requireUser context ;;
  _ <- match truthyNumber (CreateJob.conceptId input) with
       | Some conceptId =>
           owned <- limit 1 (select Concepts_table
                      (Concepts_id_owner conceptId (User.id user))) ;;
           match first owned with
           | None => throw (notFound "Concept")
           | Some _ => ret tt
           end
       | None => ret tt
       end ;;
  now <- newDate ;;
  inserted <- insert ConceptJobs_table (fun i =>
    {| ConceptJobs.id := i;
       ConceptJobs.conceptId := CreateJob.conceptId input;
       ConceptJobs.ownerId := User.id user;
       ConceptJobs.jobType := CreateJob.jobType input ?? step_breakdown;
       ConceptJobs.input := CreateJob.input_ input ?? JNull;
       ConceptJobs.output := CreateJob.output input ?? JNull;
       ConceptJobs.status := CreateJob.status input ?? pending;
       ConceptJobs.createdAt := now |}) ;;
  ret (first inserted).

Module UpdateJob.
Record input := mk {
  id : Z;
  output : Optional Json;
  status : Optional JobStatus
}.
End UpdateJob.

Definition Job_updateData (input : UpdateJob.input) : ConceptJobs.set :=
  {| ConceptJobs.set_output := UpdateJob.output input;
     ConceptJobs.set_status := UpdateJob.status input |}.

Definition ConceptJobs_keys_length (s : ConceptJobs.set) : nat :=
  (present (ConceptJobs.set_output s) + present (ConceptJobs.set_status s))%nat.

Definition updateJob (input : UpdateJob.input) (context : ActionAPIContext)
  : Action (option ConceptJobs.row) :=
  user <- requireUser context ;;
  found <- limit 1 (select ConceptJobs_table
             (ConceptJobs_id_owner (UpdateJob.id input) (User.id user))) ;;
  match first found with
  | None => throw (notFound "Job")
  | Some existing =>
      let data := Job_updateData input in
      if (ConceptJobs_keys_length data =? 0)%nat then ret (Some existing)
      else
        updated <- update ConceptJobs_table (ConceptJobs.apply data)
                     (ConceptJobs_id (UpdateJob.id input)) ;;
        ret (first updated)
  end.

Module ListJobs.
Record input := mk {
  conceptId : Optional Z;
  status : Optional JobStatus
}.
End ListJobs.

(** [new Set(ids)] and [set.has(x)]; nothing else of the set is used. *)
Definition newSet (ids : list Z) : list Z := nodup Z.eq_dec ids.
Definition has (s : list Z) (x : Z) : bool := existsb (Z.eqb x) s.

Definition listJobs (input : Optional ListJobs.input)
  (context : ActionAPIContext) : Action (list ConceptJobs.row) :=
  user <- requireUser context ;;
  mine <- select Concepts_table (Concepts_owner (User.id user)) ;;
  concepts <-
    match truthyNumber (optChain input ListJobs.conceptId) with
    | Some conceptId =>
        let narrowed := filter (fun c => Concepts.id c =? conceptId) mine in
        if (List.length narrowed =? 0)%nat then throw (notFound "Concept")
        else ret narrowed
    | None => ret mine
    end ;;
  let allowedConceptIds := newSet (map Concepts.id concepts) in
  jobs <- select ConceptJobs_table (ConceptJobs_owner (User.id user)) ;;
  let filtered := filter (fun job =>
    let matchesConcept :=
      match truthyColumn (ConceptJobs.conceptId job) with
      | Some c => has allowedConceptIds c
      | None => true
      end in
    let matchesStatus :=
      match optChain input ListJobs.status with
      | Some s => JobStatus_eqb (ConceptJobs.status job) s
      | None => true
      end in
    matchesConcept && matchesStatus) jobs in
  ret filtered.

(** * Vocabulary of the properties *)

(** The keys of a table: pairwise distinct and positive. *)
Definition ids_ok {R : Type} (key : R -> Z) (l : list R) : Prop :=
  NoDup (map key l) /\ Forall (fun r => 0 < key r) l.

(** The invariant of the store: in every table the ids are ones that
    inserts hand out. *)
Record wf (d : Db) : Prop := mkWf {
  wf_Concepts : ids_ok Concepts.id (tConcepts d);
  wf_ConceptSteps : ids_ok ConceptSteps.id (tConceptSteps d);
  wf_ConceptChecks : ids_ok ConceptChecks.id (tConceptChecks d);
  wf_ConceptJobs : ids_ok ConceptJobs.id (tConceptJobs d)
}.

(** An action preserves a property of the store when every run from a
    store that has it ends in a store that has it, whether the run
    returns or throws. *)
Definition preserves {A : Type} (P : Db -> Prop) (m : Action A) : Prop :=
  forall d, P d -> P (snd (m d)).

(** A failed call: the error thrown, and the store as it was. *)
Definition NotFound {A : Type} (what : string) (d : Db) : Result A * Db :=
  (Err (notFound what), d).

(** The caller [o] owns a concept with id [i]. *)
Definition owns (d : Db) (o : string) (i : Z) : Prop :=
  exists c, In c (tConcepts d) /\ Concepts.id c = i /\ Concepts.ownerId c = o.

(** No concept row has id [i]. *)
Definition concept_absent (d : Db) (i : Z) : Prop :=
  forall c, In c (tConcepts d) -> Concepts.id c <> i.

(** The concept row with id [i] belongs to somebody else. *)
Definition concept_foreign (d : Db) (o : string) (i : Z) : Prop :=
  exists c, In c (tConcepts d) /\ Concepts.id c = i /\ Concepts.ownerId c <> o.

(** [o] owns a concept with id [i], as a test. *)
Definition owns_b (d : Db) (o : string) (i : Z) : bool :=
  existsb (Concepts_id_owner i o) (tConcepts d).

(** The status filter of listJobs. *)
Definition status_matches (input : Optional ListJobs.input)
  (job : ConceptJobs.row) : bool :=
  match optChain input ListJobs.status with
  | Some s => JobStatus_eqb (ConceptJobs.status job) s
  | None => true
  end.


(** The same, with 0 read the way the handlers read it: a conceptId 0
    on a job counts as not set, and a conceptId filter 0 as not given. *)
Definition listJobs_visible (d : Db) (o : string)
  (input : Optional ListJobs.input) (job : ConceptJobs.row) : bool :=
  ConceptJobs_owner o job
  && match ConceptJobs.conceptId job with
     | None => true
     | Some c =>
         (c =? 0)
         || owns_b d o c
            && match truthyNumber (optChain input ListJobs.conceptId) with
               | Some f => c =? f
               | None => true
               end
     end
  && status_matches input job.

(** The rows of a table after the row with key [i] was replaced, in
    place, by [new]. *)
Definition replace_by {R : Type} (key : R -> Z) (i : Z) (new : R)
  (l : list R) : list R :=
  map (fun r => if key r =? i then new else r) l.

(** updateConcept is given none of the fields it can change. *)
Definition nothing_provided (input : UpdateConcept.input) : Prop :=
  UpdateConcept.title input = None /\
  UpdateConcept.description input = None /\
  UpdateConcept.subject input = None /\
  UpdateConcept.topic input = None /\
  UpdateConcept.tags input = None /\
  UpdateConcept.difficulty input = None /\
  UpdateConcept.status input = None.

(** [new] is [old] with the fields that [input] provides changed to the
    provided values, updatedAt set to [now], and nothing else changed. *)
Definition updated_as (input : UpdateConcept.input) (now : Date)
  (old new : Concepts.row) : Prop :=
  Concepts.id new = Concepts.id old /\
  Concepts.ownerId new = Concepts.ownerId old /\
  Concepts.createdAt new = Concepts.createdAt old /\
  Concepts.title new =
    match UpdateConcept.title input with
    | Some v => v
    | None => Concepts.title old
    end /\
  Concepts.description new =
    match UpdateConcept.description input with
    | Some v => Some v
    | None => Concepts.description old
    end /\
  Concepts.subject new =
    match UpdateConcept.subject input with
    | Some v => Some v
    | None => Concepts.subject old
    end /\
  Concepts.topic new =
    match UpdateConcept.topic input with
    | Some v => Some v
    | None => Concepts.topic old
    end /\
  Concepts.tags new =
    match UpdateConcept.tags input with
    | Some v => Some v
    | None => Concepts.tags old
    end /\
  Concepts.difficulty new =
    match UpdateConcept.difficulty input with
    | Some v => v
    | None => Concepts.difficulty old
    end /\
  Concepts.status new =
    match UpdateConcept.status input with
    | Some v => v
    | None => Concepts.status old
    end /\
  Concepts.updatedAt new = now.

(** saveStep rewrote [old] into [new]: the required fields and the
    defaulted ones are replaced, an optional text is replaced when it is
    supplied and kept when it is not. *)
Definition step_saved_as (input : SaveStep.input)
  (old new : ConceptSteps.row) : Prop :=
  ConceptSteps.id new = ConceptSteps.id old /\
  ConceptSteps.conceptId new = ConceptSteps.conceptId old /\
  ConceptSteps.createdAt new = ConceptSteps.createdAt old /\
  ConceptSteps.content new = SaveStep.content input /\
  ConceptSteps.stepNumber new =
    match SaveStep.stepNumber input with
    | Some n => n
    | None => 1
    end /\
  ConceptSteps.stepType new =
    match SaveStep.stepType input with
    | Some t => t
    | None => st_other
    end /\
  ConceptSteps.heading new =
    match SaveStep.heading input with
    | Some v => Some v
    | None => ConceptSteps.heading old
    end /\
  ConceptSteps.example new =
    match SaveStep.example input with
    | Some v => Some v
    | None => ConceptSteps.example old
    end /\
  ConceptSteps.analogy new =
    match SaveStep.analogy input with
    | Some v => Some v
    | None => ConceptSteps.analogy old
    end.

(** No stored step has both id [i] and conceptId [c]. *)
Definition no_step_matches (d : Db) (i c : Z) : Prop :=
  forall s, In s (tConceptSteps d) ->
            ~ (ConceptSteps.id s = i /\ ConceptSteps.conceptId s = c).

(** No stored check has both id [i] and conceptId [c]. *)
Definition no_check_matches (d : Db) (i c : Z) : Prop :=
  forall k, In k (tConceptChecks d) ->
            ~ (ConceptChecks.id k = i /\ ConceptChecks.conceptId k = c).

(** updateJob rewrote [old] into [new]: output and status are the
    provided values where they are provided, and every other field is
    as it was. *)
Definition job_updated_as (input : UpdateJob.input)
  (old new : ConceptJobs.row) : Prop :=
  ConceptJobs.id new = ConceptJobs.id old /\
  ConceptJobs.conceptId new = ConceptJobs.conceptId old /\
  ConceptJobs.ownerId new = ConceptJobs.ownerId old /\
  ConceptJobs.jobType new = ConceptJobs.jobType old /\
  ConceptJobs.input new = ConceptJobs.input old /\
  ConceptJobs.createdAt new = ConceptJobs.createdAt old /\
  ConceptJobs.output new =
    match UpdateJob.output input with
    | Some v => v
    | None => ConceptJobs.output old
    end /\
  ConceptJobs.status new =
    match UpdateJob.status input with
    | Some v => v
    | None => ConceptJobs.status old
    end.

(** Two job rows that agree on everything but output and status. *)
Definition job_frame (old new : ConceptJobs.row) : Prop :=
  ConceptJobs.id new = ConceptJobs.id old /\
  ConceptJobs.conceptId new = ConceptJobs.conceptId old /\
  ConceptJobs.ownerId new = ConceptJobs.ownerId old /\
  ConceptJobs.jobType new = ConceptJobs.jobType old /\
  ConceptJobs.input new = ConceptJobs.input old /\
  ConceptJobs.createdAt new = ConceptJobs.createdAt old.

(** ** The stores the actions can produce *)

(** One request: an action with its input. *)
Inductive Call : Type :=
| CallCreateConcept (input : CreateConcept.input)
| CallUpdateConcept (input : UpdateConcept.input)
| CallArchiveConcept (id : Z)
| CallListMyConcepts (input : Optional ListMyConcepts.input)
| CallGetConceptWithDetails (id : Z)
| CallSaveStep (input : SaveStep.input)
| CallDeleteStep (input : DeleteStep.input)
| CallSaveCheck (input : SaveCheck.input)
| CallDeleteCheck (input : DeleteCheck.input)
| CallCreateJob (input : CreateJob.input)
| CallUpdateJob (input : UpdateJob.input)
| CallListJobs (input : Optional ListJobs.input).

(** The store after a request, whether it returned or threw. *)
Definition perform (c : Call) (context : ActionAPIContext) (d : Db) : Db :=
  match c with
  | CallCreateConcept input => snd (createConcept input context d)
  | CallUpdateConcept input => snd (updateConcept input context d)
  | CallArchiveConcept id => snd (archiveConcept id context d)
  | CallListMyConcepts input => snd (listMyConcepts input context d)
  | CallGetConceptWithDetails id => snd (getConceptWithDetails id context d)
  | CallSaveStep input => snd (saveStep input context d)
  | CallDeleteStep input => snd (deleteStep input context d)
  | CallSaveCheck input => snd (saveCheck input context d)
  | CallDeleteCheck input => snd (deleteCheck input context d)
  | CallCreateJob input => snd (createJob input context d)
  | CallUpdateJob input => snd (updateJob input context d)
  | CallListJobs input => snd (listJobs input context d)
  end.

(** Time passing between two requests: the next request reads the
    times [f] off the clock. *)
Definition with_readings (d : Db) (f : nat -> Date) : Db :=
  mkDb (tConcepts d) (tConceptSteps d) (tConceptChecks d) (tConceptJobs d) f.

(** The store at a moment when the clock stands at [t]. *)
Definition at_time (d : Db) (t : Date) : Db := with_readings d (fun _ => t).

(** The stores reached from an empty one by requests, of any caller,
    and by the passing of time. *)
Inductive reachable : Db -> Prop :=
| reach_empty (t : Date) : reachable (emptyDb t)
| reach_call (c : Call) (context : ActionAPIContext) (d : Db) :
    reachable d -> reachable (perform c context d)
| reach_later (d : Db) (f : nat -> Date) :
    reachable d -> reachable (with_readings d f).

(** ** Stores used as examples *)

Definition alice : User.t := User.mk "alice".
Definition bob : User.t := User.mk "bob".

(** bob has created one concept; it got id 1. *)
Definition db_bob : Db :=
  snd (createConcept (CreateConcept.mk "Big-O" None None None None None None)
         (signedIn bob) (emptyDb 1000)).

(** alice has a concept (id 1) with one step, one check and one job;
    bob has a concept (id 2) with one step and one check. *)
Definition db_demo : Db :=
  let d0 := emptyDb 1000 in
  let d1 := snd (createConcept
                   (CreateConcept.mk "Big-O" None (Some "CS") None None None None)
                   (signedIn alice) d0) in
  let d2 := snd (createConcept
                   (CreateConcept.mk "Photosynthesis" None None None None None None)
                   (signedIn bob) d1) in
  let d3 := snd (saveStep
                   (SaveStep.mk None 1 (Some 3) (Some st_intro) (Some "Why")
                      "intro text" (Some "sorting") None)
                   (signedIn alice) d2) in
  let d4 := snd (saveCheck
                   (SaveCheck.mk None 1 "What is O(1)?" (Some (JArr [JStr "a"]))
                      (Some (JStr "a")) (Some "constant") (Some true_false))
                   (signedIn alice) d3) in
  let d5 := snd (saveStep
                   (SaveStep.mk None 2 None None None "light" None None)
                   (signedIn bob) d4) in
  let d6 := snd (saveCheck
                   (SaveCheck.mk None 2 "Where?" None None None None)
                   (signedIn bob) d5) in
  snd (createJob
         (CreateJob.mk (Some 1) None (Some (JStr "explain")) None None)
         (signedIn alice) d6).

(** The rows of [db_demo]. *)
Definition concept_1 : Concepts.row :=
  {| Concepts.id := 1; Concepts.ownerId := "alice";
     Concepts.title := "Big-O"; Concepts.description := None;
     Concepts.subject := Some "CS"; Concepts.topic := None;
     Concepts.tags := None; Concepts.difficulty := beginner;
     Concepts.status := draft; Concepts.createdAt := 1000;
     Concepts.updatedAt := 1000 |}.

Definition step_1 : ConceptSteps.row :=
  {| ConceptSteps.id := 1; ConceptSteps.conceptId := 1;
     ConceptSteps.stepNumber := 3; ConceptSteps.stepType := st_intro;
     ConceptSteps.heading := Some "Why";
     ConceptSteps.content := "intro text";
     ConceptSteps.example := Some "sorting";
     ConceptSteps.analogy := None; ConceptSteps.createdAt := 1000 |}.

Definition check_1 : ConceptChecks.row :=
  {| ConceptChecks.id := 1; ConceptChecks.conceptId := 1;
     ConceptChecks.question := "What is O(1)?";
     ConceptChecks.options := JArr [JStr "a"];
     ConceptChecks.correctAnswer := JStr "a";
     ConceptChecks.explanation := Some "constant";
     ConceptChecks.type := true_false; ConceptChecks.createdAt := 1000 |}.

Definition job_1 : ConceptJobs.row :=
  {| ConceptJobs.id := 1; ConceptJobs.conceptId := Some 1;
     ConceptJobs.ownerId := "alice"; ConceptJobs.jobType := step_breakdown;
     ConceptJobs.input := JStr "explain"; ConceptJobs.output := JNull;
     ConceptJobs.status := pending; ConceptJobs.createdAt := 1000 |}.

(** ** Further vocabulary *)

(** The request carries no signed-in user. *)
Definition anonymous (context : ActionAPIContext) : Prop :=
  optChain (locals context) user = None.

(** A call refused by the guard: the error thrown, and the store as it
    was. *)
Definition Unauthorized {A : Type} (d : Db) : Result A * Db :=
  (Err unauthorized, d).

(** A request without locals at all. *)
Definition no_locals : ActionAPIContext := mkContext None.

(** Two concept rows that agree on id, owner and creation time. *)
Definition concept_frame (old new : Concepts.row) : Prop :=
  Concepts.id new = Concepts.id old /\
  Concepts.ownerId new = Concepts.ownerId old /\
  Concepts.createdAt new = Concepts.createdAt old.

(** Every concept of [d] is still stored in [d'], under the same id and
    owner. *)
Definition concepts_kept (d d' : Db) : Prop :=
  forall x, In x (tConcepts d) ->
            exists x', In x' (tConcepts d') /\ concept_frame x x'.

(** Every job of [d] is still stored in [d'], changed at most in output
    and status. *)
Definition jobs_kept (d d' : Db) : Prop :=
  forall x, In x (tConceptJobs d) ->
            exists x', In x' (tConceptJobs d') /\ job_frame x x'.

(** Both, for the concepts and jobs of [d0]. *)
Definition kept (d0 d : Db) : Prop := concepts_kept d0 d /\ jobs_kept d0 d.

(** Some stored concept has id [i]. *)
Definition names_concept (d : Db) (i : Z) : Prop :=
  exists c, In c (tConcepts d) /\ Concepts.id c = i.

(** The references between the tables: the conceptId of a step or of a
    check is the id of a stored concept, and the conceptId of a job,
    when it is set, is the id of a stored concept and, when it is not
    0, of a concept of the owner of the job. *)
Record refs_ok (d : Db) : Prop := mkRefs {
  refs_steps :
    forall s, In s (tConceptSteps d) ->
              names_concept d (ConceptSteps.conceptId s);
  refs_checks :
    forall k, In k (tConceptChecks d) ->
              names_concept d (ConceptChecks.conceptId k);
  refs_jobs :
    forall j c, In j (tConceptJobs d) ->
                ConceptJobs.conceptId j = Some c -> c <> 0 ->
                owns d (ConceptJobs.ownerId j) c;
  refs_jobs_named :
    forall j c, In j (tConceptJobs d) ->
                ConceptJobs.conceptId j = Some c -> names_concept d c
}.

(** The rows that are not the caller's: the concepts and the jobs of
    other owners, and the steps and checks of concepts that the caller
    [o] does not own in [d0]. *)
Definition others_concepts (o : string) (d : Db) : list Concepts.row :=
  filter (fun c => negb (Concepts_owner o c)) (tConcepts d).

Definition others_jobs (o : string) (d : Db) : list ConceptJobs.row :=
  filter (fun j => negb (ConceptJobs_owner o j)) (tConceptJobs d).

Definition others_steps (d0 : Db) (o : string) (d : Db)
  : list ConceptSteps.row :=
  filter (fun s => negb (owns_b d0 o (ConceptSteps.conceptId s)))
    (tConceptSteps d).

Definition others_checks (d0 : Db) (o : string) (d : Db)
  : list ConceptChecks.row :=
  filter (fun k => negb (owns_b d0 o (ConceptChecks.conceptId k)))
    (tConceptChecks d).

(** Going from [d] to [d'] left all of them as they were. *)
Definition isolated (o : string) (d d' : Db) : Prop :=
  others_concepts o d' = others_concepts o d /\
  others_jobs o d' = others_jobs o d /\
  others_steps d o d' = others_steps d o d /\
  others_checks d o d' = others_checks d o d.

(** saveCheck rewrote [old] into [new]: the question and the type
    (defaulted when omitted) are replaced, the options, the correct
    answer and the explanation are replaced when supplied and kept when
    not. *)
Definition check_saved_as (input : SaveCheck.input)
  (old new : ConceptChecks.row) : Prop :=
  ConceptChecks.id new = ConceptChecks.id old /\
  ConceptChecks.conceptId new = ConceptChecks.conceptId old /\
  ConceptChecks.createdAt new = ConceptChecks.createdAt old /\
  ConceptChecks.question new = SaveCheck.question input /\
  ConceptChecks.type new =
    match SaveCheck.type input with
    | Some t => t
    | None => single_choice
    end /\
  ConceptChecks.options new =
    match SaveCheck.options input with
    | Some v => v
    | None => ConceptChecks.options old
    end /\
  ConceptChecks.correctAnswer new =
    match SaveCheck.correctAnswer input with
    | Some v => v
    | None => ConceptChecks.correctAnswer old
    end /\
  ConceptChecks.explanation new =
    match SaveCheck.explanation input with
    | Some v => Some v
    | None => ConceptChecks.explanation old
    end.

(** The conceptId given to createJob is one that the call accepts: none,
    or the id, other than 0, of a concept of the caller [o]. *)
Definition conceptId_accepted (d : Db) (o : string) (a : Optional Z) : Prop :=
  a = None \/ exists i, a = Some i /\ i <> 0 /\ owns d o i.

(** The largest integer a JavaScript number holds exactly. *)
Definition MAX_SAFE_INTEGER : Z := 9007199254740991.

(** The stepNumber of the input, when given, passed the validation of
    the action ([.int().min(1)]) and is an integer the store holds
    exactly. *)
Definition stepNumber_valid (input : SaveStep.input) : Prop :=
  forall n, SaveStep.stepNumber input = Some n -> 1 <= n <= MAX_SAFE_INTEGER.


(** * Properties *)

(** ** Lists of rows *)

Section Rows.
Context {R : Type}.
Variable key : R -> Z.

Lemma first_limit_1 (l : list R) : first (firstn 1 l) = first l.
Proof. destruct l; reflexivity. Qed.

Lemma first_filter_None (p : R -> bool) (l : list R) :
  first (filter p l) = None <-> (forall r, In r l -> p r = false).
Proof.
  induction l as [|a l IH]; simpl.
  - split; [intros _ r [] | reflexivity].
  - destruct (p a) eqn:E; simpl.
    + split; [discriminate|].
      intros H. rewrite (H a (or_introl eq_refl)) in E. discriminate.
    + rewrite IH. split.
      * intros H r [<-|Hr]; auto.
      * intros H r Hr. apply H. now right.
Qed.

Lemma first_filter_Some (p : R -> bool) (l : list R) (r : R) :
  first (filter p l) = Some r -> In r l /\ p r = true.
Proof.
  unfold first. intros H.
  assert (Hin : In r (filter p l)).
  { destruct (filter p l); inversion H; subst; now left. }
  now apply filter_In in Hin.
Qed.

(** With distinct keys, the first row a key-determined predicate finds
    is the only one. *)
Lemma first_filter_unique (p : R -> bool) (l : list R) (r : R) :
  NoDup (map key l) ->
  In r l -> p r = true ->
  (forall x, In x l -> p x = true -> key x = key r) ->
  first (filter p l) = Some r.
Proof.
  induction l as [|a l IH]; simpl; intros ND Hin Hp Hk; [contradiction|].
  inversion ND as [|? ? Hnot ND']; subst.
  destruct Hin as [->|Hin].
  - now rewrite Hp.
  - destruct (p a) eqn:E.
    + exfalso. apply Hnot.
      rewrite (Hk a (or_introl eq_refl) E). now apply in_map.
    + apply IH; auto.
Qed.

Lemma filter_none (p : R -> bool) (l : list R) :
  (forall r, In r l -> p r = false) -> filter p l = [].
Proof.
  induction l as [|a l IH]; simpl; intros H; [reflexivity|].
  rewrite (H a (or_introl eq_refl)). apply IH. intros r Hr. apply H. now right.
Qed.

Lemma map_if_none (p : R -> bool) (s : R -> R) (l : list R) :
  (forall r, In r l -> p r = false) ->
  map (fun r => if p r then s r else r) l = l.
Proof.
  induction l as [|a l IH]; simpl; intros H; [reflexivity|].
  rewrite (H a (or_introl eq_refl)). f_equal. apply IH.
  intros r Hr. apply H. now right.
Qed.

Lemma filter_negb_none (p : R -> bool) (l : list R) :
  (forall r, In r l -> p r = false) ->
  filter (fun r => negb (p r)) l = l.
Proof.
  induction l as [|a l IH]; simpl; intros H; [reflexivity|].
  rewrite (H a (or_introl eq_refl)). simpl. f_equal. apply IH.
  intros r Hr. apply H. now right.
Qed.

Lemma filter_negb_clears (p : R -> bool) (l : list R) :
  forall r, In r (filter (fun x => negb (p x)) l) -> p r = false.
Proof.
  intros r Hr. apply filter_In in Hr. destruct Hr as [_ Hr].
  now apply negb_true_iff.
Qed.

(** A rewrite that keeps keys keeps the list of keys. *)
Lemma map_key_update (p : R -> bool) (s : R -> R) (l : list R) :
  (forall r, key (s r) = key r) ->
  map key (map (fun r => if p r then s r else r) l) = map key l.
Proof.
  intros Hs. rewrite map_map. apply map_ext.
  intros r. destruct (p r); auto.
Qed.

Lemma ids_ok_update (p : R -> bool) (f : R -> R) (l : list R) :
  (forall r, key (f r) = key r) ->
  ids_ok key l -> ids_ok key (map (fun r => if p r then f r else r) l).
Proof.
  intros Hf (ND & B). split.
  - now rewrite map_key_update.
  - rewrite Forall_forall in *. intros r Hr.
    apply in_map_iff in Hr. destruct Hr as [x [<- Hx]].
    destruct (p x); [rewrite Hf|]; auto.
Qed.

Lemma NoDup_map_filter (p : R -> bool) (l : list R) :
  NoDup (map key l) -> NoDup (map key (filter p l)).
Proof.
  induction l as [|a l IH]; simpl; intros ND; [constructor|].
  inversion ND as [|? ? Hnot ND']; subst.
  destruct (p a); simpl; auto.
  constructor; auto.
  intros Hin. apply Hnot. apply in_map_iff in Hin.
  destruct Hin as [x [Hk Hx]]. apply filter_In in Hx.
  rewrite <- Hk. apply in_map. tauto.
Qed.

Lemma ids_ok_delete (p : R -> bool) (l : list R) :
  ids_ok key l -> ids_ok key (filter p l).
Proof.
  intros (ND & B). split.
  - now apply NoDup_map_filter.
  - rewrite Forall_forall in *. intros r Hr.
    apply filter_In in Hr. apply B. tauto.
Qed.

Lemma fold_max_bounds (l : list Z) (a : Z) :
  a <= fold_left Z.max l a /\ forall x, In x l -> x <= fold_left Z.max l a.
Proof.
  revert a. induction l as [|b l IH]; simpl; intros a.
  - split; [lia | intros x []].
  - destruct (IH (Z.max a b)) as [H1 H2]. split; [lia|].
    intros x [<-|Hx]; [lia | now apply H2].
Qed.

(** The next id is above every id of the table. *)
Lemma nextId_above (ids : list Z) (i : Z) : In i ids -> i < nextId ids.
Proof.
  destruct ids as [|a rest]; simpl; [intros []|].
  destruct (fold_max_bounds rest a) as [H1 H2].
  intros [<-|Hi]; [lia|]. specialize (H2 i Hi). lia.
Qed.

Lemma nextId_positive (ids : list Z) :
  Forall (fun i => 0 < i) ids -> 0 < nextId ids.
Proof.
  destruct ids as [|a rest]; simpl; intros H; [lia|].
  inversion H; subst. destruct (fold_max_bounds rest a) as [H1 _]. lia.
Qed.

Lemma ids_ok_insert (r : R) (l : list R) :
  key r = nextId (map key l) ->
  ids_ok key l -> ids_ok key (l ++ [r]).
Proof.
  intros Hr (ND & B). split.
  - rewrite map_app. simpl.
    apply NoDup_app; [assumption| repeat constructor; intros [] |].
    intros x Hx [<-|[]]. apply nextId_above in Hx. lia.
  - apply Forall_app. split; [assumption|].
    constructor; [|constructor]. rewrite Hr. apply nextId_positive.
    rewrite Forall_forall in *. intros i Hi. apply in_map_iff in Hi.
    destruct Hi as (x & <- & Hx). now apply B.
Qed.

Lemma ids_ok_nonzero (l : list R) (r : R) :
  ids_ok key l -> In r l -> key r <> 0.
Proof.
  intros (_ & B) Hr. rewrite Forall_forall in B.
  specialize (B r Hr). lia.
Qed.
End Rows.

(** ** The invariant of the store *)

Lemma wf_emptyDb (t : Date) : wf (emptyDb t).
Proof.
  constructor; simpl; (split; constructor).
Qed.

Section Preserves.
Variable P : Db -> Prop.

Lemma preserves_ret {A : Type} (a : A) : preserves P (ret a).
Proof. intros d H. exact H. Qed.

Lemma preserves_throw {A : Type} (e : ActionError) :
  preserves P (@throw A e).
Proof. intros d H. exact H. Qed.

Lemma preserves_bind {A B : Type} (m : Action A) (k : A -> Action B) :
  preserves P m -> (forall a, preserves P (k a)) -> preserves P (bind m k).
Proof.
  intros Hm Hk d H. unfold bind. specialize (Hm d H).
  destruct (m d) as [[a|e|e] d']; simpl in *; auto.
  now apply Hk.
Qed.

Lemma preserves_newDate : preserves P newDate.
Proof. intros d H. exact H. Qed.

Lemma preserves_newDateAgain (n : nat) : preserves P (newDateAgain n).
Proof. intros d H. exact H. Qed.

Lemma preserves_NOW : preserves P NOW.
Proof. intros d H. exact H. Qed.

Lemma preserves_select {R : Type} (T : Table R) (p : R -> bool) :
  preserves P (select T p).
Proof. intros d H. exact H. Qed.

Lemma preserves_limit {R : Type} (n : nat) (m : Action (list R)) :
  preserves P m -> preserves P (limit n m).
Proof.
  intros Hm. apply preserves_bind; [assumption|].
  intros a. apply preserves_ret.
Qed.

Lemma preserves_requireUser (context : ActionAPIContext) :
  preserves P (requireUser context).
Proof.
  unfold requireUser. destruct (optChain (locals context) user).
  - apply preserves_ret.
  - apply preserves_throw.
Qed.

(** A refused write leaves the store as it was. *)
Lemma preserves_updateRef {R : Type} (T : Table R) (s : R -> R) p :
  preserves P (update T s p) -> preserves P (updateRef T s p).
Proof.
  intros Hu d H. unfold updateRef.
  destruct (forallb _ _); [now apply Hu | exact H].
Qed.

Lemma preserves_insert {R : Type} (T : Table R) (v : Z -> R) :
  (forall d, P d ->
     P (store T d (rows T d ++ [v (nextId (map (key T) (rows T d)))]))) ->
  preserves P (insert T v).
Proof.
  intros Hi d H. unfold insert. cbv zeta.
  destruct (references T d _); [now apply Hi | exact H].
Qed.
End Preserves.

Ltac wf_store :=
  let d := fresh "d" in
  let H := fresh "H" in
  intros d H; destruct H; constructor; cbn; trivial.

Lemma wf_update_Concepts (s : Concepts.set) (p : Concepts.row -> bool) :
  preserves wf (update Concepts_table (Concepts.apply s) p).
Proof. wf_store. now apply ids_ok_update. Qed.

Lemma wf_update_ConceptSteps (v : ConceptSteps.values) p :
  preserves wf (update ConceptSteps_table (ConceptSteps.apply v) p).
Proof. wf_store. now apply ids_ok_update. Qed.

Lemma wf_update_ConceptChecks (v : ConceptChecks.values) p :
  preserves wf (update ConceptChecks_table (ConceptChecks.apply v) p).
Proof. wf_store. now apply ids_ok_update. Qed.

Lemma wf_update_ConceptJobs (s : ConceptJobs.set) p :
  preserves wf (update ConceptJobs_table (ConceptJobs.apply s) p).
Proof. wf_store. now apply ids_ok_update. Qed.

Lemma wf_delete_ConceptSteps p : preserves wf (delete ConceptSteps_table p).
Proof. wf_store. now apply ids_ok_delete. Qed.

Lemma wf_delete_ConceptChecks p : preserves wf (delete ConceptChecks_table p).
Proof. wf_store. now apply ids_ok_delete. Qed.

Lemma wf_insert_Concepts (v : Z -> Concepts.row) :
  (forall i, Concepts.id (v i) = i) -> preserves wf (insert Concepts_table v).
Proof.
  intros Hv. apply preserves_insert. wf_store. now apply ids_ok_insert.
Qed.

Lemma wf_insert_ConceptSteps (v : Z -> ConceptSteps.row) :
  (forall i, ConceptSteps.id (v i) = i) ->
  preserves wf (insert ConceptSteps_table v).
Proof.
  intros Hv. apply preserves_insert. wf_store. now apply ids_ok_insert.
Qed.

Lemma wf_insert_ConceptChecks (v : Z -> ConceptChecks.row) :
  (forall i, ConceptChecks.id (v i) = i) ->
  preserves wf (insert ConceptChecks_table v).
Proof.
  intros Hv. apply preserves_insert. wf_store. now apply ids_ok_insert.
Qed.

Lemma wf_insert_ConceptJobs (v : Z -> ConceptJobs.row) :
  (forall i, ConceptJobs.id (v i) = i) ->
  preserves wf (insert ConceptJobs_table v).
Proof.
  intros Hv. apply preserves_insert. wf_store. now apply ids_ok_insert.
Qed.

(** Walks through a handler, one bind or branch at a time. *)
Ltac preserve :=
  repeat first
    [ apply preserves_ret
    | apply preserves_throw
    | apply preserves_newDate
    | apply preserves_newDateAgain
    | apply preserves_NOW
    | apply preserves_requireUser
    | apply preserves_select
    | apply preserves_limit
    | apply preserves_updateRef
    | apply wf_update_Concepts
    | apply wf_update_ConceptSteps
    | apply wf_update_ConceptChecks
    | apply wf_update_ConceptJobs
    | apply wf_delete_ConceptSteps
    | apply wf_delete_ConceptChecks
    | apply wf_insert_Concepts; reflexivity
    | apply wf_insert_ConceptSteps; reflexivity
    | apply wf_insert_ConceptChecks; reflexivity
    | apply wf_insert_ConceptJobs; reflexivity
    | apply preserves_bind; [|intros ?]
    | match goal with
      | |- preserves _ (match ?x with _ => _ end) => destruct x
      | |- preserves _ (let _ := _ in _) => cbv zeta
      end ].

Section Invariant.
Variable context : ActionAPIContext.

Lemma createConcept_wf input : preserves wf (createConcept input context).
Proof. unfold createConcept. preserve. Qed.

Lemma updateConcept_wf input : preserves wf (updateConcept input context).
Proof. unfold updateConcept. preserve. Qed.

Lemma archiveConcept_wf id : preserves wf (archiveConcept id context).
Proof. unfold archiveConcept. preserve. Qed.

Lemma listMyConcepts_wf input : preserves wf (listMyConcepts input context).
Proof. unfold listMyConcepts. preserve. Qed.

Lemma getConceptWithDetails_wf id :
  preserves wf (getConceptWithDetails id context).
Proof. unfold getConceptWithDetails. preserve. Qed.

Lemma saveStep_wf input : preserves wf (saveStep input context).
Proof. unfold saveStep. preserve. Qed.

Lemma deleteStep_wf input : preserves wf (deleteStep input context).
Proof. unfold deleteStep. preserve. Qed.

Lemma saveCheck_wf input : preserves wf (saveCheck input context).
Proof. unfold saveCheck. preserve. Qed.

Lemma deleteCheck_wf input : preserves wf (deleteCheck input context).
Proof. unfold deleteCheck. preserve. Qed.

Lemma createJob_wf input : preserves wf (createJob input context).
Proof. unfold createJob. preserve. Qed.

Lemma updateJob_wf input : preserves wf (updateJob input context).
Proof. unfold updateJob. preserve. Qed.

Lemma listJobs_wf input : preserves wf (listJobs input context).
Proof. unfold listJobs. preserve. Qed.
End Invariant.

(** Every store the actions can produce has the invariant. *)
Lemma reachable_wf (d : Db) : reachable d -> wf d.
Proof.
  induction 1 as [t | c context d _ IH | d f _ IH].
  - apply wf_emptyDb.
  - destruct c; simpl;
      [ apply createConcept_wf | apply updateConcept_wf
      | apply archiveConcept_wf | apply listMyConcepts_wf
      | apply getConceptWithDetails_wf | apply saveStep_wf
      | apply deleteStep_wf | apply saveCheck_wf | apply deleteCheck_wf
      | apply createJob_wf | apply updateJob_wf | apply listJobs_wf ];
      exact IH.
  - destruct IH. constructor; assumption.
Qed.

(** ** Running a handler *)

(** Reduces the monadic plumbing of a handler, leaving the list
    operations of the store in place. *)
Ltac run :=
  cbv beta iota zeta delta
    [bind ret throw limit select update delete insert newDate newDateAgain
     NOW requireUser optChain signedIn locals user rows store key references
     Concepts_references
     Concepts_table ConceptSteps_table ConceptChecks_table ConceptJobs_table];
  rewrite ?first_limit_1.

Lemma store_Concepts_same (d : Db) :
  store Concepts_table d (tConcepts d) = d.
Proof. destruct d; reflexivity. Qed.

Lemma store_ConceptSteps_same (d : Db) :
  store ConceptSteps_table d (tConceptSteps d) = d.
Proof. destruct d; reflexivity. Qed.

Lemma store_ConceptChecks_same (d : Db) :
  store ConceptChecks_table d (tConceptChecks d) = d.
Proof. destruct d; reflexivity. Qed.

Lemma store_ConceptJobs_same (d : Db) :
  store ConceptJobs_table d (tConceptJobs d) = d.
Proof. destruct d; reflexivity. Qed.

(** A write of a step or check under a conceptId that a stored concept
    has is not refused. *)
Lemma updateRef_ConceptSteps (d : Db) (v : ConceptSteps.values) p :
  Concepts_has_id d (ConceptSteps.v_conceptId v) = true ->
  updateRef ConceptSteps_table (ConceptSteps.apply v) p d
  = update ConceptSteps_table (ConceptSteps.apply v) p d.
Proof.
  intros H. unfold updateRef.
  replace (forallb _ _) with true; [reflexivity|].
  symmetry. apply forallb_forall. intros r _. exact H.
Qed.

Lemma updateRef_ConceptChecks (d : Db) (v : ConceptChecks.values) p :
  Concepts_has_id d (ConceptChecks.v_conceptId v) = true ->
  updateRef ConceptChecks_table (ConceptChecks.apply v) p d
  = update ConceptChecks_table (ConceptChecks.apply v) p d.
Proof.
  intros H. unfold updateRef.
  replace (forallb _ _) with true; [reflexivity|].
  symmetry. apply forallb_forall. intros r _. exact H.
Qed.

Lemma has_id_of_lookup (d : Db) (o : string) (i : Z) (c : Concepts.row) :
  first (filter (Concepts_id_owner i o) (tConcepts d)) = Some c ->
  Concepts_has_id d i = true.
Proof.
  intros L. apply first_filter_Some in L. destruct L as [Hc Hp].
  unfold Concepts_id_owner in Hp. apply andb_true_iff in Hp.
  unfold Concepts_has_id. apply existsb_exists. exists c. tauto.
Qed.

(** ** Ownership *)

Lemma Concepts_id_owner_true i o c :
  Concepts_id_owner i o c = true <->
  Concepts.id c = i /\ Concepts.ownerId c = o.
Proof.
  unfold Concepts_id_owner.
  now rewrite andb_true_iff, Z.eqb_eq, String.eqb_eq.
Qed.

Lemma unique_id {R : Type} (key : R -> Z) (l : list R) (x y : R) :
  NoDup (map key l) -> In x l -> In y l -> key x = key y -> x = y.
Proof.
  induction l as [|a l IH]; simpl; intros ND Hx Hy E; [contradiction|].
  inversion ND as [|? ? Hnot ND']; subst.
  destruct Hx as [->|Hx], Hy as [->|Hy]; auto.
  - exfalso. apply Hnot. rewrite E. now apply in_map.
  - exfalso. apply Hnot. rewrite <- E. now apply in_map.
Qed.

Lemma lookup_not_owned d o i :
  wf d -> concept_absent d i \/ concept_foreign d o i ->
  forall c, In c (tConcepts d) -> Concepts_id_owner i o c = false.
Proof.
  intros W H c Hc. apply not_true_is_false. intros E.
  apply Concepts_id_owner_true in E. destruct E as [Ei Eo].
  destruct H as [Habs | (c' & Hc' & Ei' & Eo')].
  - now apply (Habs c Hc).
  - apply Eo'. destruct (wf_Concepts d W) as (ND & _).
    assert (c' = c) by (apply (unique_id Concepts.id (tConcepts d)); congruence).
    congruence.
Qed.

Lemma lookup_owned d o i :
  owns d o i ->
  exists c, first (filter (Concepts_id_owner i o) (tConcepts d)) = Some c.
Proof.
  intros (c & Hc & Ei & Eo).
  destruct (first (filter (Concepts_id_owner i o) (tConcepts d))) eqn:E.
  - now exists r.
  - rewrite first_filter_None in E. specialize (E c Hc).
    assert (Concepts_id_owner i o c = true)
      by now apply Concepts_id_owner_true.
    congruence.
Qed.

Lemma lookup_concept d o c :
  wf d -> In c (tConcepts d) -> Concepts.ownerId c = o ->
  first (filter (Concepts_id_owner (Concepts.id c) o) (tConcepts d)) = Some c.
Proof.
  intros W Hc Eo. destruct (wf_Concepts d W) as (ND & _).
  apply (first_filter_unique Concepts.id); auto.
  - now apply Concepts_id_owner_true.
  - intros x _ Hx. now apply Concepts_id_owner_true in Hx.
Qed.

Lemma truthyNumber_nonzero i : i <> 0 -> truthyNumber (Some i) = Some i.
Proof.
  intros H. unfold truthyNumber.
  destruct (i =? 0) eqn:E; [apply Z.eqb_eq in E; contradiction | reflexivity].
Qed.

(** ** Scoped operations on a concept the caller does not own *)

(** X19: in a store with distinct ids, when the concept row
    with id [i] is absent or belongs to another user, updateConcept,
    archiveConcept, getConceptWithDetails, saveStep, saveCheck, deleteStep
    and deleteCheck on [i] all fail with the same NOT_FOUND error
    ("Concept not found.") and leave the store as it was, whichever of the
    two is the case; so does createJob when the conceptId it is given
    is [i] and [i] is not 0. *)
Theorem not_owned_is_NotFound (d : Db) (u : User.t) (i : Z) :
  wf d ->
  concept_absent d i \/ concept_foreign d (User.id u) i ->
  (forall input, UpdateConcept.id input = i ->
     updateConcept input (signedIn u) d = NotFound "Concept" d) /\
  archiveConcept i (signedIn u) d = NotFound "Concept" d /\
  getConceptWithDetails i (signedIn u) d = NotFound "Concept" d /\
  (forall input, SaveStep.conceptId input = i ->
     saveStep input (signedIn u) d = NotFound "Concept" d) /\
  (forall input, SaveCheck.conceptId input = i ->
     saveCheck input (signedIn u) d = NotFound "Concept" d) /\
  (forall input, DeleteStep.conceptId input = i ->
     deleteStep input (signedIn u) d = NotFound "Concept" d) /\
  (forall input, DeleteCheck.conceptId input = i ->
     deleteCheck input (signedIn u) d = NotFound "Concept" d) /\
  (forall input, CreateJob.conceptId input = Some i -> i <> 0 ->
     createJob input (signedIn u) d = NotFound "Concept" d).
Proof.
  intros W H.
  pose proof (lookup_not_owned d (User.id u) i W H) as Hno.
  pose proof (filter_none _ _ Hno) as Hnone.
  repeat split.
  - intros input <-. unfold updateConcept. run. now rewrite Hnone.
  - unfold archiveConcept. run. rewrite Hnone. simpl.
    rewrite map_if_none by assumption.
    unfold NotFound. f_equal. now destruct d.
  - unfold getConceptWithDetails. run. now rewrite Hnone.
  - intros input <-. unfold saveStep. run. now rewrite Hnone.
  - intros input <-. unfold saveCheck. run. now rewrite Hnone.
  - intros input <-. unfold deleteStep. run. now rewrite Hnone.
  - intros input <-. unfold deleteCheck. run. now rewrite Hnone.
  - intros input E Hi. unfold createJob. rewrite E, truthyNumber_nonzero by assumption.
    run. now rewrite Hnone.
Qed.

Lemma wf_db_bob : wf db_bob.
Proof. apply createConcept_wf, wf_emptyDb. Qed.

(** X19, witness: alice on bob's concept 1. *)
Lemma not_owned_is_NotFound_witness :
  wf db_bob /\
  (concept_absent db_bob 1 \/ concept_foreign db_bob (User.id alice) 1) /\
  archiveConcept 1 (signedIn alice) db_bob = NotFound "Concept" db_bob.
Proof.
  assert (F : concept_absent db_bob 1 \/
              concept_foreign db_bob (User.id alice) 1).
  { right. eexists. split; [left; reflexivity|]. split; [reflexivity|].
    discriminate. }
  split; [exact wf_db_bob | split; [exact F|]].
  exact (proj1 (proj2 (not_owned_is_NotFound db_bob alice 1 wf_db_bob F))).
Defined.

(** *** createJob with conceptId 0 *)

Lemma Concepts_has_id_true (d : Db) (i : Z) :
  Concepts_has_id d i = true <-> names_concept d i.
Proof.
  unfold Concepts_has_id, names_concept. rewrite existsb_exists.
  split; intros (c & Hc & H); exists c; split; trivial;
    now apply Z.eqb_eq.
Qed.

Lemma owns_has_id (d : Db) (o : string) (i : Z) :
  owns d o i -> Concepts_has_id d i = true.
Proof.
  intros (c & Hc & Hi & _). apply Concepts_has_id_true. now exists c.
Qed.

(** No concept has id 0 where the ids are positive. *)
Lemma Concepts_has_id_0 (d : Db) : wf d -> Concepts_has_id d 0 = false.
Proof.
  intros W. apply not_true_is_false. intros H.
  apply Concepts_has_id_true in H. destruct H as (c & Hc & Hi).
  now apply (ids_ok_nonzero Concepts.id _ c (wf_Concepts d W) Hc).
Qed.

(** createJob given conceptId 0 passes over the ownership check and
    goes on to the insert, which the store refuses. *)
Lemma createJob_conceptId_0 (d : Db) (u : User.t) jt i o st :
  wf d ->
  createJob (CreateJob.mk (Some 0) jt i o st) (signedIn u) d
  = (Fault FOREIGN_KEY, d).
Proof.
  intros W. unfold createJob. cbn [CreateJob.conceptId truthyNumber Z.eqb].
  run. unfold ConceptJobs_references. cbn [ConceptJobs.conceptId].
  now rewrite (Concepts_has_id_0 d W).
Qed.

(** C1: the statement fails for createJob at conceptId 0.  No concept
    has id 0, yet alice's createJob with conceptId 0 does not fail with
    NOT_FOUND: the test of the conceptId reads 0 as no conceptId, the
    ownership check is passed over, and the call ends in the foreign-key
    error of the store, with nothing written. *)
Theorem createJob_conceptId_0_is_not_NotFound :
  wf db_bob /\ concept_absent db_bob 0 /\
  createJob (CreateJob.mk (Some 0) None None None None)
    (signedIn alice) db_bob = (Fault FOREIGN_KEY, db_bob) /\
  createJob (CreateJob.mk (Some 0) None None None None)
    (signedIn alice) db_bob <> NotFound "Concept" db_bob.
Proof.
  split; [exact wf_db_bob | split; [|split]].
  - intros c [<-|[]]. discriminate.
  - apply createJob_conceptId_0, wf_db_bob.
  - rewrite (createJob_conceptId_0 db_bob alice _ _ _ _ wf_db_bob).
    discriminate.
Qed.

(** ** listJobs *)

Lemma bool_ext (a b : bool) : (a = true <-> b = true) -> a = b.
Proof. destruct a, b; intuition congruence. Qed.

Lemma filter_twice {R : Type} (f g : R -> bool) (l : list R) :
  filter g (filter f l) = filter (fun x => f x && g x) l.
Proof.
  induction l as [|a l IH]; simpl; [reflexivity|].
  destruct (f a); simpl; [destruct (g a)|]; now rewrite IH.
Qed.

Lemma has_newSet (l : list Z) (x : Z) : has (newSet l) x = existsb (Z.eqb x) l.
Proof.
  unfold has, newSet. apply bool_ext. rewrite !existsb_exists.
  split; intros (y & Hy & E); exists y; split; trivial;
    now apply (nodup_In Z.eq_dec).
Qed.

Lemma owns_b_true d o i : owns_b d o i = true <-> owns d o i.
Proof.
  unfold owns_b, owns. rewrite existsb_exists.
  split; intros (c & Hc & H); exists c; split; trivial;
    now apply Concepts_id_owner_true.
Qed.

Lemma has_mine (cs : list Concepts.row) (o : string) (c : Z) :
  has (newSet (map Concepts.id (filter (Concepts_owner o) cs))) c
  = existsb (Concepts_id_owner c o) cs.
Proof.
  rewrite has_newSet. apply bool_ext. rewrite !existsb_exists. split.
  - intros (y & Hy & E). apply in_map_iff in Hy.
    destruct Hy as (r & <- & Hr). apply filter_In in Hr.
    destruct Hr as [Hr Ho]. exists r. split; trivial.
    apply Concepts_id_owner_true. apply Z.eqb_eq in E.
    unfold Concepts_owner in Ho. apply String.eqb_eq in Ho. auto.
  - intros (r & Hr & E). apply Concepts_id_owner_true in E.
    destruct E as [Ei Eo]. exists (Concepts.id r). split.
    + apply in_map. apply filter_In. split; trivial.
      unfold Concepts_owner. now apply String.eqb_eq.
    + now apply Z.eqb_eq.
Qed.

Lemma has_narrowed (cs : list Concepts.row) (o : string) (f c : Z) :
  has (newSet (map Concepts.id
         (filter (fun x => Concepts.id x =? f)
            (filter (Concepts_owner o) cs)))) c
  = existsb (Concepts_id_owner c o) cs && (c =? f).
Proof.
  rewrite filter_twice, has_newSet. apply bool_ext.
  rewrite andb_true_iff, !existsb_exists, Z.eqb_eq. split.
  - intros (y & Hy & E). apply in_map_iff in Hy.
    destruct Hy as (r & <- & Hr). apply filter_In in Hr.
    destruct Hr as [Hr Ho]. apply andb_true_iff in Ho.
    destruct Ho as [Ho Hf]. apply Z.eqb_eq in E, Hf.
    unfold Concepts_owner in Ho. apply String.eqb_eq in Ho.
    split; [|congruence]. exists r. split; trivial.
    apply Concepts_id_owner_true. auto.
  - intros [(r & Hr & E) ->]. apply Concepts_id_owner_true in E.
    destruct E as [Ei Eo]. exists (Concepts.id r). split.
    + apply in_map. apply filter_In. split; trivial.
      unfold Concepts_owner. apply andb_true_iff. split.
      * now apply String.eqb_eq.
      * now apply Z.eqb_eq.
    + now apply Z.eqb_eq.
Qed.

Lemma narrowed_nonempty (d : Db) (o : string) (f : Z) :
  owns d o f ->
  Nat.eqb (List.length (filter (fun x => Concepts.id x =? f)
                          (filter (Concepts_owner o) (tConcepts d)))) 0
  = false.
Proof.
  intros (c & Hc & Ei & Eo). apply Nat.eqb_neq. intros E.
  apply length_zero_iff_nil in E.
  assert (Hin : In c (filter (fun x => Concepts.id x =? f)
                        (filter (Concepts_owner o) (tConcepts d)))).
  { apply filter_In. split; [apply filter_In; split; trivial|].
    - unfold Concepts_owner. now apply String.eqb_eq.
    - now apply Z.eqb_eq. }
  rewrite E in Hin. contradiction.
Qed.

(** What listJobs computes, in one filter over the jobs table. *)
Lemma listJobs_runs (d : Db) (u : User.t) (input : Optional ListJobs.input) :
  (forall f, truthyNumber (optChain input ListJobs.conceptId) = Some f ->
             owns d (User.id u) f) ->
  listJobs input (signedIn u) d
  = (Ok (filter (listJobs_visible d (User.id u) input) (tConceptJobs d)), d).
Proof.
  intros Hf. unfold listJobs.
  destruct (truthyNumber (optChain input ListJobs.conceptId)) as [f|] eqn:E; run.
  - rewrite (narrowed_nonempty d (User.id u) f (Hf f eq_refl)).
    rewrite filter_twice. f_equal. f_equal. apply filter_ext. intros j.
    unfold listJobs_visible, status_matches, truthyColumn.
    rewrite E, <- andb_assoc. f_equal. f_equal.
    destruct (ConceptJobs.conceptId j) as [c|]; simpl; trivial.
    destruct (c =? 0); simpl; trivial.
    now rewrite has_narrowed.
  - rewrite filter_twice. f_equal. f_equal. apply filter_ext. intros j.
    unfold listJobs_visible, status_matches, truthyColumn.
    rewrite E, <- andb_assoc. f_equal. f_equal.
    destruct (ConceptJobs.conceptId j) as [c|]; simpl; trivial.
    destruct (c =? 0); simpl; trivial.
    now rewrite has_mine, andb_true_r.
Qed.


Lemma wf_db_demo : wf db_demo.
Proof.
  unfold db_demo. cbv zeta.
  apply createJob_wf, saveCheck_wf, saveStep_wf, saveCheck_wf, saveStep_wf,
    createConcept_wf, createConcept_wf, wf_emptyDb.
Qed.

Lemma alice_owns_1 : owns db_demo (User.id alice) 1.
Proof.
  eexists. split; [left; reflexivity|]. split; reflexivity.
Qed.

(** ** Updates of the one row a key names *)

Lemma first_map {A B : Type} (f : A -> B) (l : list A) :
  first (map f l) = option_map f (first l).
Proof. destruct l; reflexivity. Qed.

Section UniqueRow.
Context {R : Type}.
Variable key : R -> Z.
Variable l : list R.
Variable r : R.
Variable p : R -> bool.
Hypothesis distinct : NoDup (map key l).
Hypothesis stored : In r l.
Hypothesis selected : p r = true.
Hypothesis by_key : forall x, In x l -> p x = true -> key x = key r.

Lemma selected_iff (x : R) : In x l -> p x = (key x =? key r).
Proof.
  intros Hx. apply bool_ext. rewrite Z.eqb_eq. split.
  - now apply by_key.
  - intros E. now rewrite (unique_id key l x r distinct Hx stored E).
Qed.

Lemma update_unique (s : R -> R) :
  map (fun x => if p x then s x else x) l = replace_by key (key r) (s r) l.
Proof.
  unfold replace_by. apply map_ext_in. intros x Hx.
  rewrite (selected_iff x Hx). destruct (key x =? key r) eqn:E; trivial.
  apply Z.eqb_eq in E.
  now rewrite (unique_id key l x r distinct Hx stored E).
Qed.

Lemma returning_unique (s : R -> R) :
  first (map s (filter p l)) = Some (s r).
Proof.
  rewrite first_map, (first_filter_unique key p l r); auto.
Qed.

Lemma replace_by_same : replace_by key (key r) r l = l.
Proof.
  unfold replace_by. rewrite <- map_id. apply map_ext_in. intros x Hx.
  destruct (key x =? key r) eqn:E; trivial. apply Z.eqb_eq in E.
  now rewrite (unique_id key l x r distinct Hx stored E).
Qed.
End UniqueRow.

(** ** updateConcept *)

Lemma keys_length_0 (input : UpdateConcept.input) :
  Concepts_keys_length (updateData input) = 0%nat <-> nothing_provided input.
Proof.
  unfold nothing_provided. destruct input as [i t de su to ta di st]. simpl.
  unfold Concepts_keys_length. simpl. split.
  - destruct t, de, su, to, ta, di, st; simpl; intros H;
      try discriminate H; repeat split.
  - intros (-> & -> & -> & -> & -> & -> & ->). reflexivity.
Qed.

(** C3: for a concept [c] of the caller, updateConcept with none of the
    mutable fields provided returns [c] as it is stored and leaves the
    store as it was (so updatedAt is unchanged); with at least one field
    provided it returns, and stores in place of [c], the row that
    differs from [c] in the provided fields and in updatedAt, which is
    the current time, and it changes no other row and no other table. *)
Theorem updateConcept_partial (d : Db) (u : User.t) (c : Concepts.row)
  (input : UpdateConcept.input) :
  wf d ->
  In c (tConcepts d) ->
  Concepts.ownerId c = User.id u ->
  UpdateConcept.id input = Concepts.id c ->
  (nothing_provided input ->
     updateConcept input (signedIn u) d = (Ok (Some c), d)) /\
  (~ nothing_provided input ->
     exists c',
       updateConcept input (signedIn u) d
       = (Ok (Some c'),
          store Concepts_table d
            (replace_by Concepts.id (Concepts.id c) c' (tConcepts d))) /\
       updated_as input (clock d) c c').
Proof.
  intros W Hc Ho Hi.
  destruct (wf_Concepts d W) as (ND & _).
  pose proof (lookup_concept d (User.id u) c W Hc Ho) as L.
  assert (Hp : Concepts_id_owner (Concepts.id c) (User.id u) c = true)
    by now apply Concepts_id_owner_true.
  assert (Hk : forall x, In x (tConcepts d) ->
                 Concepts_id_owner (Concepts.id c) (User.id u) x = true ->
                 Concepts.id x = Concepts.id c).
  { intros x _ Hx. now apply Concepts_id_owner_true in Hx. }
  split; intros N.
  - unfold updateConcept. run. rewrite Hi, L.
    apply keys_length_0 in N. now rewrite N.
  - exists (Concepts.apply (withUpdatedAt (updateData input) (clock d)) c).
    split.
    + unfold updateConcept. run. rewrite Hi, L.
      destruct (Concepts_keys_length (updateData input) =? 0)%nat eqn:E.
      * apply Nat.eqb_eq in E. apply keys_length_0 in E. contradiction.
      * rewrite (returning_unique Concepts.id _ c _ ND Hc Hp Hk).
        now rewrite (update_unique Concepts.id _ c _ ND Hc Hp Hk).
    + unfold updated_as. simpl. repeat split;
        match goal with
        | |- context [match ?x with _ => _ end] => now destruct x
        end.
Qed.

(** C3, witness: alice publishes her concept 1. *)
Lemma updateConcept_partial_witness :
  wf db_demo /\
  In concept_1 (tConcepts db_demo) /\
  Concepts.ownerId concept_1 = User.id alice /\
  (exists c',
     fst (updateConcept
            (UpdateConcept.mk 1 None None None None None None (Some published))
            (signedIn alice) db_demo) = Ok (Some c') /\
     Concepts.status c' = published /\ Concepts.updatedAt c' = 1000 /\
     Concepts.title c' = "Big-O").
Proof.
  assert (Hin : In concept_1 (tConcepts db_demo)) by (left; reflexivity).
  split; [exact wf_db_demo | split; [exact Hin | split; [reflexivity|]]].
  destruct (updateConcept_partial db_demo alice concept_1
              (UpdateConcept.mk 1 None None None None None None (Some published))
              wf_db_demo Hin eq_refl eq_refl) as [_ H].
  destruct H as (c' & E & U).
  - intros (_ & _ & _ & _ & _ & _ & N). discriminate N.
  - exists c'. rewrite E. split; [reflexivity|].
    destruct U as (_ & _ & _ & Ht & _ & _ & _ & _ & _ & Hs & Hu).
    now rewrite Ht, Hs, Hu.
Defined.

(** ** saveStep and saveCheck on an existing row *)

Lemma lookup_step (d : Db) (s : ConceptSteps.row) :
  wf d -> In s (tConceptSteps d) ->
  first (filter (ConceptSteps_id (ConceptSteps.id s)) (tConceptSteps d))
  = Some s.
Proof.
  intros W Hs. destruct (wf_ConceptSteps d W) as (ND & _).
  apply (first_filter_unique ConceptSteps.id); auto.
  - apply Z.eqb_refl.
  - intros x _ Hx. now apply Z.eqb_eq in Hx.
Qed.

Lemma lookup_check (d : Db) (k : ConceptChecks.row) :
  wf d -> In k (tConceptChecks d) ->
  first (filter (ConceptChecks_id (ConceptChecks.id k)) (tConceptChecks d))
  = Some k.
Proof.
  intros W Hk. destruct (wf_ConceptChecks d W) as (ND & _).
  apply (first_filter_unique ConceptChecks.id); auto.
  - apply Z.eqb_refl.
  - intros x _ Hx. now apply Z.eqb_eq in Hx.
Qed.

(** X20: for a stored step [s] whose conceptId is the
    supplied conceptId of a concept of the caller, saveStep with the id
    of [s] rewrites that row in place and returns it: content is the
    supplied one, stepNumber is the supplied one or 1, stepType the
    supplied one or "other", and heading, example and analogy are the
    supplied values where they are supplied and stay as stored where
    they are omitted; id, conceptId and createdAt stay. *)
Theorem saveStep_overwrites (d : Db) (u : User.t) (s : ConceptSteps.row)
  (input : SaveStep.input) :
  wf d ->
  owns d (User.id u) (SaveStep.conceptId input) ->
  In s (tConceptSteps d) ->
  ConceptSteps.conceptId s = SaveStep.conceptId input ->
  SaveStep.id input = Some (ConceptSteps.id s) ->
  stepNumber_valid input ->
  exists s',
    saveStep input (signedIn u) d
    = (Ok (Some s'),
       store ConceptSteps_table d
         (replace_by ConceptSteps.id (ConceptSteps.id s) s' (tConceptSteps d))) /\
    step_saved_as input s s'.
Proof.
  intros W Hown Hs Hc Hi _.
  destruct (wf_ConceptSteps d W) as (ND & B).
  destruct (lookup_owned _ _ _ Hown) as (c & L).
  pose proof (ids_ok_nonzero ConceptSteps.id _ s (wf_ConceptSteps d W) Hs)
    as Hnz.
  exists (ConceptSteps.apply (Step_baseValues input) s). split.
  - unfold saveStep. run. rewrite L, Hi, truthyNumber_nonzero by assumption.
    run. rewrite (lookup_step d s W Hs), Hc, Z.eqb_refl. cbn [negb]. cbv beta iota.
    rewrite updateRef_ConceptSteps by exact (has_id_of_lookup _ _ _ _ L).
    run.
    assert (Hk : forall x, In x (tConceptSteps d) ->
                   ConceptSteps_id (ConceptSteps.id s) x = true ->
                   ConceptSteps.id x = ConceptSteps.id s).
    { intros x _ Hx. now apply Z.eqb_eq in Hx. }
    rewrite (returning_unique ConceptSteps.id _ s _ ND Hs (Z.eqb_refl _) Hk).
    now rewrite (update_unique ConceptSteps.id _ s _ ND Hs (Z.eqb_refl _) Hk).
  - unfold step_saved_as. simpl. repeat split; auto;
      match goal with
      | |- context [match ?x with _ => _ end] => now destruct x
      end.
Qed.

(** X20, witness: alice saves her step 1 again with new content only. *)
Lemma saveStep_overwrites_witness :
  wf db_demo /\
  owns db_demo (User.id alice) 1 /\
  In step_1 (tConceptSteps db_demo) /\
  stepNumber_valid
    (SaveStep.mk (Some 1) 1 None None None "revised" None None) /\
  exists s',
    fst (saveStep (SaveStep.mk (Some 1) 1 None None None "revised" None None)
           (signedIn alice) db_demo) = Ok (Some s') /\
    ConceptSteps.stepNumber s' = 1 /\
    ConceptSteps.stepType s' = st_other /\
    ConceptSteps.content s' = "revised".
Proof.
  assert (Hin : In step_1 (tConceptSteps db_demo)) by (left; reflexivity).
  assert (V : stepNumber_valid
                (SaveStep.mk (Some 1) 1 None None None "revised" None None))
    by (intros n E; discriminate E).
  split; [exact wf_db_demo | split; [exact alice_owns_1 | split; [exact Hin|]]].
  split; [exact V|].
  destruct (saveStep_overwrites db_demo alice step_1
              (SaveStep.mk (Some 1) 1 None None None "revised" None None)
              wf_db_demo alice_owns_1 Hin eq_refl eq_refl V) as (s' & E & U).
  exists s'. rewrite E. split; [reflexivity|].
  destruct U as (_ & _ & _ & Hc & Hn & Ht & _). auto.
Defined.

(** C4: the statement fails on the update path.  Step 1 is stored with
    heading "Why" and example "sorting"; saved again by its owner under
    its id with content "revised" and nothing else, it gets stepNumber 1
    and stepType "other" but keeps its heading and its example, where
    the statement has them replaced by the absent supplied values.  The
    same input without the id stores a step whose heading and example
    are absent. *)
Theorem saveStep_keeps_omitted_texts :
  wf db_demo /\
  owns db_demo (User.id alice) 1 /\
  In step_1 (tConceptSteps db_demo) /\
  ConceptSteps.conceptId step_1 = 1 /\
  (exists s' d',
     saveStep (SaveStep.mk (Some (ConceptSteps.id step_1)) 1 None None None
                 "revised" None None)
       (signedIn alice) db_demo = (Ok (Some s'), d') /\
     ConceptSteps.content s' = "revised" /\
     ConceptSteps.stepNumber s' = 1 /\
     ConceptSteps.stepType s' = st_other /\
     ConceptSteps.heading s' = Some "Why" /\
     ConceptSteps.example s' = Some "sorting" /\
     ConceptSteps.heading s' <> None /\
     ConceptSteps.example s' <> None /\
     In s' (tConceptSteps d')) /\
  (exists s0 d0,
     saveStep (SaveStep.mk None 1 None None None "revised" None None)
       (signedIn alice) db_demo = (Ok (Some s0), d0) /\
     ConceptSteps.heading s0 = None /\
     ConceptSteps.example s0 = None).
Proof.
  split; [exact wf_db_demo | split; [exact alice_owns_1|]].
  split; [left; reflexivity | split; [reflexivity|]]. split.
  - eexists. eexists. split; [vm_compute; reflexivity|].
    repeat split; try discriminate. left. reflexivity.
  - eexists. eexists. split; [vm_compute; reflexivity|]. split; reflexivity.
Qed.

(** C5: a stored step (a stored check) whose conceptId is not the
    supplied one cannot be saved under the supplied concept: saveStep
    (saveCheck) with its id and a conceptId of the caller's fails with
    NOT_FOUND and leaves the store, and so the row, as it was. *)
Theorem save_under_other_concept_is_NotFound (d : Db) (u : User.t) :
  wf d ->
  (forall (s : ConceptSteps.row) (input : SaveStep.input),
     In s (tConceptSteps d) ->
     owns d (User.id u) (SaveStep.conceptId input) ->
     ConceptSteps.conceptId s <> SaveStep.conceptId input ->
     SaveStep.id input = Some (ConceptSteps.id s) ->
     saveStep input (signedIn u) d = NotFound "Step" d) /\
  (forall (k : ConceptChecks.row) (input : SaveCheck.input),
     In k (tConceptChecks d) ->
     owns d (User.id u) (SaveCheck.conceptId input) ->
     ConceptChecks.conceptId k <> SaveCheck.conceptId input ->
     SaveCheck.id input = Some (ConceptChecks.id k) ->
     saveCheck input (signedIn u) d = NotFound "Check" d).
Proof.
  intros W. split.
  - intros s input Hs Hown Hc Hi.
    destruct (lookup_owned _ _ _ Hown) as (c & L).
    pose proof (ids_ok_nonzero ConceptSteps.id _ s (wf_ConceptSteps d W) Hs)
      as Hnz.
    unfold saveStep. run. rewrite L, Hi, truthyNumber_nonzero by assumption.
    run. rewrite (lookup_step d s W Hs).
    apply Z.eqb_neq in Hc. now rewrite Hc.
  - intros k input Hk Hown Hc Hi.
    destruct (lookup_owned _ _ _ Hown) as (c & L).
    pose proof (ids_ok_nonzero ConceptChecks.id _ k (wf_ConceptChecks d W) Hk)
      as Hnz.
    unfold saveCheck. run. rewrite L, Hi, truthyNumber_nonzero by assumption.
    run. rewrite (lookup_check d k W Hk).
    apply Z.eqb_neq in Hc. now rewrite Hc.
Qed.

Lemma bob_owns_2 : owns db_demo (User.id bob) 2.
Proof.
  eexists. split; [right; left; reflexivity|]. split; reflexivity.
Qed.

(** C5, witness: bob tries to save alice's step 1 and check 1 under his
    concept 2. *)
Lemma save_under_other_concept_is_NotFound_witness :
  wf db_demo /\
  In step_1 (tConceptSteps db_demo) /\
  In check_1 (tConceptChecks db_demo) /\
  owns db_demo (User.id bob) 2 /\
  saveStep (SaveStep.mk (Some 1) 2 None None None "mine" None None)
    (signedIn bob) db_demo = NotFound "Step" db_demo /\
  saveCheck (SaveCheck.mk (Some 1) 2 "mine?" None None None None)
    (signedIn bob) db_demo = NotFound "Check" db_demo.
Proof.
  assert (Hs : In step_1 (tConceptSteps db_demo)) by (left; reflexivity).
  assert (Hk : In check_1 (tConceptChecks db_demo)) by (left; reflexivity).
  destruct (save_under_other_concept_is_NotFound db_demo bob wf_db_demo)
    as [S K].
  split; [exact wf_db_demo|].
  split; [exact Hs | split; [exact Hk | split; [exact bob_owns_2 | split]]].
  - apply (S step_1); [exact Hs | exact bob_owns_2 | discriminate | reflexivity].
  - apply (K check_1); [exact Hk | exact bob_owns_2 | discriminate | reflexivity].
Defined.

(** ** deleteStep and deleteCheck *)

Lemma no_step_matches_false d i c :
  no_step_matches d i c <->
  forall s, In s (tConceptSteps d) -> ConceptSteps_id_concept i c s = false.
Proof.
  unfold no_step_matches, ConceptSteps_id_concept.
  split; intros H s Hs; specialize (H s Hs).
  - apply not_true_is_false. intros E. apply H.
    apply andb_true_iff in E. now rewrite <- !Z.eqb_eq.
  - intros [E1 E2]. apply Z.eqb_eq in E1, E2. rewrite E1, E2 in H.
    discriminate.
Qed.

Lemma no_check_matches_false d i c :
  no_check_matches d i c <->
  forall k, In k (tConceptChecks d) -> ConceptChecks_id_concept i c k = false.
Proof.
  unfold no_check_matches, ConceptChecks_id_concept.
  split; intros H k Hk; specialize (H k Hk).
  - apply not_true_is_false. intros E. apply H.
    apply andb_true_iff in E. now rewrite <- !Z.eqb_eq.
  - intros [E1 E2]. apply Z.eqb_eq in E1, E2. rewrite E1, E2 in H.
    discriminate.
Qed.

Lemma deleteStep_missing d u input :
  owns d (User.id u) (DeleteStep.conceptId input) ->
  no_step_matches d (DeleteStep.id input) (DeleteStep.conceptId input) ->
  deleteStep input (signedIn u) d = NotFound "Step" d.
Proof.
  intros Hown Hno. destruct (lookup_owned _ _ _ Hown) as (c & L).
  pose proof (proj1 (no_step_matches_false _ _ _) Hno) as Hf.
  unfold deleteStep. run. rewrite L. run.
  rewrite (filter_none _ _ Hf), (filter_negb_none _ _ Hf).
  unfold NotFound. simpl. f_equal. now destruct d.
Qed.

Lemma deleteCheck_missing d u input :
  owns d (User.id u) (DeleteCheck.conceptId input) ->
  no_check_matches d (DeleteCheck.id input) (DeleteCheck.conceptId input) ->
  deleteCheck input (signedIn u) d = NotFound "Check" d.
Proof.
  intros Hown Hno. destruct (lookup_owned _ _ _ Hown) as (c & L).
  pose proof (proj1 (no_check_matches_false _ _ _) Hno) as Hf.
  unfold deleteCheck. run. rewrite L. run.
  rewrite (filter_none _ _ Hf), (filter_negb_none _ _ Hf).
  unfold NotFound. simpl. f_equal. now destruct d.
Qed.

Lemma deleteStep_done d u input s d' :
  owns d (User.id u) (DeleteStep.conceptId input) ->
  deleteStep input (signedIn u) d = (Ok s, d') ->
  In s (tConceptSteps d) /\
  owns d' (User.id u) (DeleteStep.conceptId input) /\
  no_step_matches d' (DeleteStep.id input) (DeleteStep.conceptId input).
Proof.
  intros Hown. destruct (lookup_owned _ _ _ Hown) as (c & L).
  unfold deleteStep. run. rewrite L. run.
  destruct (first (filter _ (tConceptSteps d))) as [r|] eqn:E;
    [|discriminate].
  intros H. injection H as <- <-. split; [|split].
  - now apply first_filter_Some in E.
  - exact Hown.
  - apply (proj2 (no_step_matches_false _ _ _)). intros x Hx.
    now apply filter_negb_clears in Hx.
Qed.

Lemma deleteCheck_done d u input k d' :
  owns d (User.id u) (DeleteCheck.conceptId input) ->
  deleteCheck input (signedIn u) d = (Ok k, d') ->
  In k (tConceptChecks d) /\
  owns d' (User.id u) (DeleteCheck.conceptId input) /\
  no_check_matches d' (DeleteCheck.id input) (DeleteCheck.conceptId input).
Proof.
  intros Hown. destruct (lookup_owned _ _ _ Hown) as (c & L).
  unfold deleteCheck. run. rewrite L. run.
  destruct (first (filter _ (tConceptChecks d))) as [r|] eqn:E;
    [|discriminate].
  intros H. injection H as <- <-. split; [|split].
  - now apply first_filter_Some in E.
  - exact Hown.
  - apply (proj2 (no_check_matches_false _ _ _)). intros x Hx.
    now apply filter_negb_clears in Hx.
Qed.

(** C6: on a concept of the caller, deleteStep (deleteCheck) fails with
    NOT_FOUND, leaving the store as it was, whenever no stored row has
    both the supplied id and the supplied conceptId; and once a call has
    deleted a row, the same call again fails with NOT_FOUND and leaves
    the store as the first call left it. *)
Theorem delete_again_is_NotFound (d : Db) (u : User.t) :
  (forall input : DeleteStep.input,
     owns d (User.id u) (DeleteStep.conceptId input) ->
     (no_step_matches d (DeleteStep.id input) (DeleteStep.conceptId input) ->
      deleteStep input (signedIn u) d = NotFound "Step" d) /\
     (forall s d',
        deleteStep input (signedIn u) d = (Ok s, d') ->
        In s (tConceptSteps d) /\ ~ In s (tConceptSteps d') /\
        deleteStep input (signedIn u) d' = NotFound "Step" d')) /\
  (forall input : DeleteCheck.input,
     owns d (User.id u) (DeleteCheck.conceptId input) ->
     (no_check_matches d (DeleteCheck.id input) (DeleteCheck.conceptId input) ->
      deleteCheck input (signedIn u) d = NotFound "Check" d) /\
     (forall k d',
        deleteCheck input (signedIn u) d = (Ok k, d') ->
        In k (tConceptChecks d) /\ ~ In k (tConceptChecks d') /\
        deleteCheck input (signedIn u) d' = NotFound "Check" d')).
Proof.
  split; intros input Hown; (split; [now apply (deleteStep_missing d u input)
                                    || now apply (deleteCheck_missing d u input)|]).
  - intros s d' E.
    pose proof E as E'. unfold deleteStep in E'. revert E'. run.
    destruct (lookup_owned _ _ _ Hown) as (c & L). rewrite L. run.
    destruct (first (filter _ (tConceptSteps d))) as [r|] eqn:F;
      [|discriminate].
    intros E'. injection E' as -> _. apply first_filter_Some in F.
    destruct (deleteStep_done d u input s d' Hown E) as (Hin & Hown' & Hno).
    split; [exact Hin | split].
    + intros Hin'. apply (Hno s Hin').
      destruct F as [_ F]. unfold ConceptSteps_id_concept in F.
      apply andb_true_iff in F. now rewrite <- !Z.eqb_eq.
    + now apply deleteStep_missing.
  - intros k d' E.
    pose proof E as E'. unfold deleteCheck in E'. revert E'. run.
    destruct (lookup_owned _ _ _ Hown) as (c & L). rewrite L. run.
    destruct (first (filter _ (tConceptChecks d))) as [r|] eqn:F;
      [|discriminate].
    intros E'. injection E' as -> _. apply first_filter_Some in F.
    destruct (deleteCheck_done d u input k d' Hown E) as (Hin & Hown' & Hno).
    split; [exact Hin | split].
    + intros Hin'. apply (Hno k Hin').
      destruct F as [_ F]. unfold ConceptChecks_id_concept in F.
      apply andb_true_iff in F. now rewrite <- !Z.eqb_eq.
    + now apply deleteCheck_missing.
Qed.

(** C6, witness: alice deletes a step that her concept 1 does not have. *)
Lemma delete_again_is_NotFound_witness :
  owns db_demo (User.id alice) 1 /\
  no_step_matches db_demo 7 1 /\
  deleteStep (DeleteStep.mk 7 1) (signedIn alice) db_demo
  = NotFound "Step" db_demo.
Proof.
  assert (N : no_step_matches db_demo 7 1).
  { intros s [<-|[<-|[]]] [E _]; discriminate E. }
  split; [exact alice_owns_1 | split; [exact N|]].
  destruct (delete_again_is_NotFound db_demo alice) as [S _].
  destruct (S (DeleteStep.mk 7 1) alice_owns_1) as [M _].
  exact (M N).
Defined.

(** ** createJob *)

(** What createJob returns and stores when its conceptId is accepted. *)
Lemma createJob_runs (d : Db) (u : User.t) (input : CreateJob.input) :
  conceptId_accepted d (User.id u) (CreateJob.conceptId input) ->
  exists j,
    createJob input (signedIn u) d
    = (Ok (Some j), store ConceptJobs_table d (tConceptJobs d ++ [j])) /\
    j = {| ConceptJobs.id := nextId (map ConceptJobs.id (tConceptJobs d));
           ConceptJobs.conceptId := CreateJob.conceptId input;
           ConceptJobs.ownerId := User.id u;
           ConceptJobs.jobType := CreateJob.jobType input ?? step_breakdown;
           ConceptJobs.input := CreateJob.input_ input ?? JNull;
           ConceptJobs.output := CreateJob.output input ?? JNull;
           ConceptJobs.status := CreateJob.status input ?? pending;
           ConceptJobs.createdAt := clock d |}.
Proof.
  intros [E|(i & E & Hnz & Hown)]; eexists; (split; [|reflexivity]);
    unfold createJob; rewrite E.
  - cbn [truthyNumber]. run. reflexivity.
  - rewrite truthyNumber_nonzero by assumption. run.
    destruct (lookup_owned _ _ _ Hown) as (c & L). rewrite L. run.
    unfold ConceptJobs_references. cbn [ConceptJobs.conceptId].
    now rewrite (owns_has_id d _ i Hown).
Qed.

(** C7: createJob by a signed-in caller, given no conceptId or the id
    (not 0) of a concept of the caller, stores and returns a job whose
    jobType is "step_breakdown" when jobType is omitted and whose status
    is "pending" when status is omitted, which is not the "completed"
    that the table declares as the column default. *)
Theorem createJob_defaults (d : Db) (u : User.t) (input : CreateJob.input) :
  conceptId_accepted d (User.id u) (CreateJob.conceptId input) ->
  exists j,
    createJob input (signedIn u) d
    = (Ok (Some j),
       store ConceptJobs_table d (tConceptJobs d ++ [j])) /\
    ConceptJobs.ownerId j = User.id u /\
    (CreateJob.jobType input = None ->
       ConceptJobs.jobType j = step_breakdown) /\
    (CreateJob.status input = None ->
       ConceptJobs.status j = pending /\
       ConceptJobs.status j <> ConceptJobs.status_default).
Proof.
  intros H. destruct (createJob_runs d u input H) as (j & E & Ej).
  exists j. split; [exact E|]. subst j. cbn. split; [reflexivity|]. split.
  - intros ->. reflexivity.
  - intros ->. split; [reflexivity | discriminate].
Qed.

(** C7, witness: alice creates a job on her concept 1 with nothing else
    given. *)
Lemma createJob_defaults_witness :
  conceptId_accepted db_demo (User.id alice)
    (CreateJob.conceptId (CreateJob.mk (Some 1) None None None None)) /\
  exists j,
    fst (createJob (CreateJob.mk (Some 1) None None None None)
           (signedIn alice) db_demo) = Ok (Some j) /\
    ConceptJobs.jobType j = step_breakdown /\
    ConceptJobs.status j = pending.
Proof.
  assert (H : conceptId_accepted db_demo (User.id alice)
                (CreateJob.conceptId
                   (CreateJob.mk (Some 1) None None None None))).
  { right. exists 1. split; [reflexivity|]. split; [discriminate|].
    exact alice_owns_1. }
  split; [exact H|].
  destruct (createJob_defaults db_demo alice
              (CreateJob.mk (Some 1) None None None None) H)
    as (j & E & _ & Ht & Hs).
  exists j. rewrite E. split; [reflexivity|]. split.
  - exact (Ht eq_refl).
  - exact (proj1 (Hs eq_refl)).
Defined.

(** ** updateJob *)

Lemma ConceptJobs_id_owner_true i o j :
  ConceptJobs_id_owner i o j = true <->
  ConceptJobs.id j = i /\ ConceptJobs.ownerId j = o.
Proof.
  unfold ConceptJobs_id_owner.
  now rewrite andb_true_iff, Z.eqb_eq, String.eqb_eq.
Qed.

Lemma lookup_job (d : Db) (o : string) (j : ConceptJobs.row) :
  wf d -> In j (tConceptJobs d) -> ConceptJobs.ownerId j = o ->
  first (filter (ConceptJobs_id_owner (ConceptJobs.id j) o) (tConceptJobs d))
  = Some j.
Proof.
  intros W Hj Ho. destruct (wf_ConceptJobs d W) as (ND & _).
  apply (first_filter_unique ConceptJobs.id); auto.
  - now apply ConceptJobs_id_owner_true.
  - intros x _ Hx. now apply ConceptJobs_id_owner_true in Hx.
Qed.

Lemma job_frame_update (d0 : Db) (s : ConceptJobs.set) p :
  preserves (fun d => Forall2 job_frame (tConceptJobs d0) (tConceptJobs d))
    (update ConceptJobs_table (ConceptJobs.apply s) p).
Proof.
  intros d. cbn. generalize (tConceptJobs d0) (tConceptJobs d).
  induction 1 as [|a b l l' Hab _ IH]; simpl; constructor; trivial.
  destruct (p b); exact Hab.
Qed.

Lemma job_frame_refl (l : list ConceptJobs.row) : Forall2 job_frame l l.
Proof.
  induction l; constructor; trivial. repeat split.
Qed.

(** No call of updateJob, whoever makes it and whether it returns or
    throws, changes a field of a job other than output and status. *)
Lemma updateJob_frame_all input context (d : Db) :
  Forall2 job_frame (tConceptJobs d)
    (tConceptJobs (snd (updateJob input context d))).
Proof.
  assert (H : preserves
                (fun d' => Forall2 job_frame (tConceptJobs d) (tConceptJobs d'))
                (updateJob input context)).
  { unfold updateJob.
    apply preserves_bind; [apply preserves_requireUser | intros user].
    apply preserves_bind; [apply preserves_limit, preserves_select | intros found].
    destruct (first found); [|apply preserves_throw].
    cbv zeta.
    destruct (ConceptJobs_keys_length (Job_updateData input) =? 0)%nat;
      [apply preserves_ret|].
    apply preserves_bind; [apply job_frame_update | intros ?; apply preserves_ret]. }
  apply H, job_frame_refl.
Qed.

(** C8: no updateJob call changes the id, conceptId, ownerId, jobType,
    input or createdAt of any job.  For a job [j] of the caller,
    updateJob returns the row that differs from [j] at most in output
    and status, each changed only when it is provided, and stores it in
    place of [j], no other row or table being touched.  With neither
    output nor status provided it returns [j] itself and the store is
    as it was. *)
Theorem updateJob_frame (d : Db) (u : User.t) (j : ConceptJobs.row)
  (input : UpdateJob.input) :
  wf d ->
  In j (tConceptJobs d) ->
  ConceptJobs.ownerId j = User.id u ->
  UpdateJob.id input = ConceptJobs.id j ->
  (forall input' context',
     Forall2 job_frame (tConceptJobs d)
       (tConceptJobs (snd (updateJob input' context' d)))) /\
  (exists j',
     updateJob input (signedIn u) d
     = (Ok (Some j'),
        store ConceptJobs_table d
          (replace_by ConceptJobs.id (ConceptJobs.id j) j' (tConceptJobs d))) /\
     job_updated_as input j j') /\
  (UpdateJob.output input = None -> UpdateJob.status input = None ->
     updateJob input (signedIn u) d = (Ok (Some j), d)).
Proof.
  intros W Hj Ho Hi.
  destruct (wf_ConceptJobs d W) as (ND & _).
  pose proof (lookup_job d (User.id u) j W Hj Ho) as L.
  assert (Hk : forall x, In x (tConceptJobs d) ->
                 ConceptJobs_id (ConceptJobs.id j) x = true ->
                 ConceptJobs.id x = ConceptJobs.id j).
  { intros x _ Hx. now apply Z.eqb_eq in Hx. }
  split; [intros; apply updateJob_frame_all | split].
  - exists (ConceptJobs.apply (Job_updateData input) j). split.
    + unfold updateJob. run. rewrite Hi, L.
      destruct (ConceptJobs_keys_length (Job_updateData input) =? 0)%nat eqn:E.
      * destruct input as [i [o|] [s|]]; try discriminate E.
        assert (A : ConceptJobs.apply
                      (Job_updateData (UpdateJob.mk i None None)) j = j)
          by now destruct j.
        rewrite A, (replace_by_same ConceptJobs.id (tConceptJobs d) j ND Hj).
        f_equal. now destruct d.
      * rewrite (returning_unique ConceptJobs.id _ j _ ND Hj (Z.eqb_refl _) Hk).
        now rewrite (update_unique ConceptJobs.id _ j _ ND Hj (Z.eqb_refl _) Hk).
    + unfold job_updated_as. simpl. repeat split;
        match goal with
        | |- context [match ?x with _ => _ end] => now destruct x
        end.
  - intros Eo Es. unfold updateJob. run. rewrite Hi, L.
    unfold ConceptJobs_keys_length, Job_updateData. simpl.
    now rewrite Eo, Es.
Qed.

(** C8, witness: alice sets the status of her job 1 and nothing else. *)
Lemma updateJob_frame_witness :
  wf db_demo /\
  In job_1 (tConceptJobs db_demo) /\
  ConceptJobs.ownerId job_1 = User.id alice /\
  exists j',
    fst (updateJob (UpdateJob.mk 1 None (Some completed))
           (signedIn alice) db_demo) = Ok (Some j') /\
    ConceptJobs.status j' = completed /\
    ConceptJobs.output j' = ConceptJobs.output job_1 /\
    ConceptJobs.input j' = ConceptJobs.input job_1.
Proof.
  assert (Hin : In job_1 (tConceptJobs db_demo)) by (left; reflexivity).
  split; [exact wf_db_demo | split; [exact Hin | split; [reflexivity|]]].
  destruct (updateJob_frame db_demo alice job_1
              (UpdateJob.mk 1 None (Some completed))
              wf_db_demo Hin eq_refl eq_refl) as (_ & (j' & E & U) & _).
  exists j'. rewrite E. split; [reflexivity|].
  destruct U as (_ & _ & _ & _ & Hinp & _ & Hout & Hst). auto.
Defined.

(** ** Falsy filter and id values *)

Lemma filter_all {R : Type} (l : list R) : filter (fun _ => true) l = l.
Proof. induction l as [|a l IH]; simpl; [reflexivity | now rewrite IH]. Qed.

(** C9: a subject filter that is the empty string gives what the same
    call without a subject filter gives, and likewise for topic; with
    both empty and no status filter, every concept of the caller is
    returned. *)
Theorem listMyConcepts_empty_string_filter
  (status : Optional ConceptStatus) (subject topic : Optional string)
  (context : ActionAPIContext) (d : Db) :
  listMyConcepts (Some (ListMyConcepts.mk status (Some "") topic)) context d
  = listMyConcepts (Some (ListMyConcepts.mk status None topic)) context d /\
  listMyConcepts (Some (ListMyConcepts.mk status subject (Some ""))) context d
  = listMyConcepts (Some (ListMyConcepts.mk status subject None)) context d /\
  forall u : User.t,
    listMyConcepts (Some (ListMyConcepts.mk None (Some "") (Some "")))
      (signedIn u) d
    = (Ok (filter (Concepts_owner (User.id u)) (tConcepts d)), d).
Proof.
  split; [reflexivity | split; [reflexivity|]].
  intros u. unfold listMyConcepts. run. simpl. now rewrite filter_all.
Qed.

(** C10 (as amended): an id 0 given to saveStep or saveCheck is read as
    no id: the call is the call without an id, and on a concept of the
    caller (for saveStep, with a stepNumber that passed validation) it
    appends a new row, under an id above every stored one, instead of
    updating or failing with NOT_FOUND.  A conceptId 0 given
    to createJob is read as no conceptId by the ownership check, which
    is passed over: the call never fails with NOT_FOUND, whatever the
    concepts table holds; the insert it goes on to is refused by the
    store where no concept has id 0. *)
Theorem zero_is_read_as_absent :
  (forall cid n t h c e a context d,
     saveStep (SaveStep.mk (Some 0) cid n t h c e a) context d
     = saveStep (SaveStep.mk None cid n t h c e a) context d) /\
  (forall d u cid n t h c e a,
     owns d (User.id u) cid ->
     stepNumber_valid (SaveStep.mk (Some 0) cid n t h c e a) ->
     exists s,
       saveStep (SaveStep.mk (Some 0) cid n t h c e a) (signedIn u) d
       = (Ok (Some s),
          store ConceptSteps_table d (tConceptSteps d ++ [s])) /\
       (forall r, In r (tConceptSteps d) ->
                  ConceptSteps.id r < ConceptSteps.id s) /\
       ConceptSteps.conceptId s = cid /\
       ConceptSteps.content s = c) /\
  (forall cid q o a e t context d,
     saveCheck (SaveCheck.mk (Some 0) cid q o a e t) context d
     = saveCheck (SaveCheck.mk None cid q o a e t) context d) /\
  (forall d u cid q o a e t,
     owns d (User.id u) cid ->
     exists k,
       saveCheck (SaveCheck.mk (Some 0) cid q o a e t) (signedIn u) d
       = (Ok (Some k),
          store ConceptChecks_table d (tConceptChecks d ++ [k])) /\
       (forall r, In r (tConceptChecks d) ->
                  ConceptChecks.id r < ConceptChecks.id k) /\
       ConceptChecks.conceptId k = cid /\
       ConceptChecks.question k = q) /\
  (forall d u jt i o st,
     createJob (CreateJob.mk (Some 0) jt i o st) (signedIn u) d
     <> NotFound "Concept" d /\
     (wf d ->
      createJob (CreateJob.mk (Some 0) jt i o st) (signedIn u) d
      = (Fault FOREIGN_KEY, d))).
Proof.
  split; [reflexivity|]. split; [|split; [reflexivity|split]].
  - intros d u cid n t h c e a Hown _.
    destruct (lookup_owned _ _ _ Hown) as (x & L).
    eexists. split.
    { unfold saveStep. run. cbn [SaveStep.conceptId]. rewrite L.
      cbn [SaveStep.id truthyNumber Z.eqb]. run.
      unfold ConceptSteps_references.
      cbn [ConceptSteps.conceptId ConceptSteps.fresh Step_baseValues
           ConceptSteps.v_conceptId SaveStep.conceptId].
      rewrite (owns_has_id d _ cid Hown). reflexivity. }
    split; [|split; reflexivity].
    intros r Hr. cbn [ConceptSteps.id ConceptSteps.fresh].
    apply nextId_above. now apply in_map.
  - intros d u cid q o a e t Hown.
    destruct (lookup_owned _ _ _ Hown) as (x & L).
    eexists. split.
    { unfold saveCheck. run. cbn [SaveCheck.conceptId]. rewrite L.
      cbn [SaveCheck.id truthyNumber Z.eqb]. run.
      unfold ConceptChecks_references.
      cbn [ConceptChecks.conceptId ConceptChecks.fresh Check_baseValues
           ConceptChecks.v_conceptId SaveCheck.conceptId].
      rewrite (owns_has_id d _ cid Hown). reflexivity. }
    split; [|split; reflexivity].
    intros r Hr. cbn [ConceptChecks.id ConceptChecks.fresh].
    apply nextId_above. now apply in_map.
  - intros d u jt i o st. split.
    + unfold createJob. cbn [CreateJob.conceptId truthyNumber Z.eqb]. run.
      destruct (ConceptJobs_references d _); discriminate.
    + apply createJob_conceptId_0.
Qed.

(** C10, witness: alice saves a step and a check with id 0 on her
    concept 1, and creates a job with conceptId 0. *)
Lemma zero_is_read_as_absent_witness :
  owns db_demo (User.id alice) 1 /\ wf db_demo /\
  stepNumber_valid
    (SaveStep.mk (Some 0) 1 None None None "more" None None) /\
  (exists s,
     fst (saveStep (SaveStep.mk (Some 0) 1 None None None "more" None None)
            (signedIn alice) db_demo) = Ok (Some s) /\
     ConceptSteps.conceptId s = 1) /\
  (exists k,
     fst (saveCheck (SaveCheck.mk (Some 0) 1 "And O(n)?" None None None None)
            (signedIn alice) db_demo) = Ok (Some k) /\
     ConceptChecks.conceptId k = 1) /\
  createJob (CreateJob.mk (Some 0) None None None None) (signedIn alice) db_demo
  = (Fault FOREIGN_KEY, db_demo).
Proof.
  destruct zero_is_read_as_absent as (_ & S & _ & K & J).
  assert (V : stepNumber_valid
                (SaveStep.mk (Some 0) 1 None None None "more" None None))
    by (intros n E; discriminate E).
  split; [exact alice_owns_1 | split; [exact wf_db_demo|]].
  split; [exact V | split; [|split]].
  - destruct (S db_demo alice 1 None None None "more" None None alice_owns_1 V)
      as (s & E & _ & Hc & _).
    exists s. rewrite E. split; [reflexivity | exact Hc].
  - destruct (K db_demo alice 1 "And O(n)?" None None None None alice_owns_1)
      as (k & E & _ & Hc & _).
    exists k. rewrite E. split; [reflexivity | exact Hc].
  - exact (proj2 (J db_demo alice None None None None) wf_db_demo).
Defined.

(** C10, as stated, fails for createJob: alice's createJob with
    conceptId 0 inserts no job.  The store refuses the row, the jobs
    table is as it was, and it holds no job with conceptId 0. *)
Lemma createJob_conceptId_0_inserts_nothing :
  reachable db_demo /\
  createJob (CreateJob.mk (Some 0) None None None None) (signedIn alice) db_demo
  = (Fault FOREIGN_KEY, db_demo) /\
  tConceptJobs
    (snd (createJob (CreateJob.mk (Some 0) None None None None)
            (signedIn alice) db_demo)) = [job_1] /\
  ConceptJobs.conceptId job_1 <> Some 0.
Proof.
  assert (E : createJob (CreateJob.mk (Some 0) None None None None)
                (signedIn alice) db_demo = (Fault FOREIGN_KEY, db_demo))
    by (apply createJob_conceptId_0, wf_db_demo).
  split; [|split; [exact E | split; [now rewrite E | discriminate]]].
  unfold db_demo. cbv zeta.
  apply (reach_call (CallCreateJob _)).
  apply (reach_call (CallSaveCheck _)).
  apply (reach_call (CallSaveStep _)).
  apply (reach_call (CallSaveCheck _)).
  apply (reach_call (CallSaveStep _)).
  apply (reach_call (CallCreateConcept _)).
  apply (reach_call (CallCreateConcept _)).
  apply reach_empty.
Qed.

(** * Further properties of the actions *)

(** ** The guard *)

Lemma requireUser_anonymous (context : ActionAPIContext) :
  anonymous context -> requireUser context = throw unauthorized.
Proof. unfold anonymous, requireUser. now intros ->. Qed.

Lemma requireUser_cases (context : ActionAPIContext) :
  anonymous context \/ exists u, requireUser context = ret u.
Proof.
  unfold anonymous, requireUser.
  destruct (optChain (locals context) user) as [u|]; [right; now exists u|].
  now left.
Qed.

(** X1: a request that carries no signed-in user is refused by every
    action with UNAUTHORIZED, before the store is read or written. *)
Theorem anonymous_is_Unauthorized (context : ActionAPIContext) (d : Db) :
  anonymous context ->
  (forall input, createConcept input context d = Unauthorized d) /\
  (forall input, updateConcept input context d = Unauthorized d) /\
  (forall id, archiveConcept id context d = Unauthorized d) /\
  (forall input, listMyConcepts input context d = Unauthorized d) /\
  (forall id, getConceptWithDetails id context d = Unauthorized d) /\
  (forall input, saveStep input context d = Unauthorized d) /\
  (forall input, deleteStep input context d = Unauthorized d) /\
  (forall input, saveCheck input context d = Unauthorized d) /\
  (forall input, deleteCheck input context d = Unauthorized d) /\
  (forall input, createJob input context d = Unauthorized d) /\
  (forall input, updateJob input context d = Unauthorized d) /\
  (forall input, listJobs input context d = Unauthorized d).
Proof.
  intros H. apply requireUser_anonymous in H.
  repeat split; intros;
    unfold createConcept, updateConcept, archiveConcept, listMyConcepts,
      getConceptWithDetails, saveStep, deleteStep, saveCheck, deleteCheck,
      createJob, updateJob, listJobs;
    rewrite H; reflexivity.
Qed.

Lemma anonymous_is_Unauthorized_witness :
  anonymous no_locals /\
  archiveConcept 1 no_locals db_demo = Unauthorized db_demo.
Proof.
  assert (H : anonymous no_locals) by reflexivity.
  split; [exact H|].
  exact (proj1 (proj2 (proj2 (anonymous_is_Unauthorized no_locals db_demo H))) 1).
Defined.

(** ** Reading *)

(** X2: listMyConcepts, getConceptWithDetails and listJobs never write:
    whatever the input and the caller, and whether they return or throw,
    the store after the call is the store before it. *)
Theorem reads_leave_the_store (context : ActionAPIContext) (d : Db) :
  (forall input, snd (listMyConcepts input context d) = d) /\
  (forall id, snd (getConceptWithDetails id context d) = d) /\
  (forall input, snd (listJobs input context d) = d).
Proof.
  repeat split; intros.
  - assert (P : preserves (fun d' => d' = d) (listMyConcepts input context))
      by (unfold listMyConcepts; preserve).
    now apply P.
  - assert (P : preserves (fun d' => d' = d) (getConceptWithDetails id context))
      by (unfold getConceptWithDetails; preserve).
    now apply P.
  - assert (P : preserves (fun d' => d' = d) (listJobs input context))
      by (unfold listJobs; preserve).
    now apply P.
Qed.

(** ** What no action removes *)

(** Walks through a handler like [preserve], with the lemmas for the
    writes of the store given by [leaf]. *)
Ltac walk leaf :=
  repeat first
    [ apply preserves_ret
    | apply preserves_throw
    | apply preserves_newDate
    | apply preserves_newDateAgain
    | apply preserves_NOW
    | apply preserves_requireUser
    | apply preserves_select
    | apply preserves_limit
    | apply preserves_updateRef
    | leaf
    | apply preserves_bind; [|intros ?]
    | match goal with
      | |- preserves _ (match ?x with _ => _ end) => destruct x
      | |- preserves _ (let _ := _ in _) => cbv zeta
      end ].

Section Kept.
Variable d0 : Db.

Lemma kept_refl : kept d0 d0.
Proof.
  split; intros x Hx; exists x; split; trivial; repeat split.
Qed.

Lemma kept_update_Concepts (s : Concepts.set) p :
  preserves (kept d0) (update Concepts_table (Concepts.apply s) p).
Proof.
  intros d [HC HJ]. split; [|exact HJ].
  intros x Hx. destruct (HC x Hx) as (y & Hy & F). cbn.
  exists (if p y then Concepts.apply s y else y). split.
  - apply in_map_iff. now exists y.
  - destruct (p y); exact F.
Qed.

Lemma kept_update_ConceptJobs (s : ConceptJobs.set) p :
  preserves (kept d0) (update ConceptJobs_table (ConceptJobs.apply s) p).
Proof.
  intros d [HC HJ]. split; [exact HC|].
  intros x Hx. destruct (HJ x Hx) as (y & Hy & F). cbn.
  exists (if p y then ConceptJobs.apply s y else y). split.
  - apply in_map_iff. now exists y.
  - destruct (p y); exact F.
Qed.

Lemma kept_update_ConceptSteps f p :
  preserves (kept d0) (update ConceptSteps_table f p).
Proof. intros d H. exact H. Qed.

Lemma kept_update_ConceptChecks f p :
  preserves (kept d0) (update ConceptChecks_table f p).
Proof. intros d H. exact H. Qed.

Lemma kept_delete_ConceptSteps p : preserves (kept d0) (delete ConceptSteps_table p).
Proof. intros d H. exact H. Qed.

Lemma kept_delete_ConceptChecks p :
  preserves (kept d0) (delete ConceptChecks_table p).
Proof. intros d H. exact H. Qed.

Lemma kept_insert_Concepts v : preserves (kept d0) (insert Concepts_table v).
Proof.
  apply preserves_insert. intros d [HC HJ]. split; [|exact HJ].
  intros x Hx. destruct (HC x Hx) as (y & Hy & F). cbn.
  exists y. split; [apply in_or_app; now left | exact F].
Qed.

Lemma kept_insert_ConceptJobs v :
  preserves (kept d0) (insert ConceptJobs_table v).
Proof.
  apply preserves_insert. intros d [HC HJ]. split; [exact HC|].
  intros x Hx. destruct (HJ x Hx) as (y & Hy & F). cbn.
  exists y. split; [apply in_or_app; now left | exact F].
Qed.

Lemma kept_insert_ConceptSteps v :
  preserves (kept d0) (insert ConceptSteps_table v).
Proof. apply preserves_insert. intros d H. exact H. Qed.

Lemma kept_insert_ConceptChecks v :
  preserves (kept d0) (insert ConceptChecks_table v).
Proof. apply preserves_insert. intros d H. exact H. Qed.
End Kept.

Ltac kept_leaf :=
  first
    [ apply kept_update_Concepts | apply kept_update_ConceptJobs
    | apply kept_update_ConceptSteps | apply kept_update_ConceptChecks
    | apply kept_delete_ConceptSteps | apply kept_delete_ConceptChecks
    | apply kept_insert_Concepts | apply kept_insert_ConceptJobs
    | apply kept_insert_ConceptSteps | apply kept_insert_ConceptChecks ].

(** X3: no action removes a concept or a job, or changes who owns it:
    after any request, by any caller, every concept stored before is
    still stored with its id, ownerId and createdAt, and every job
    stored before is still stored with its id, conceptId, ownerId,
    jobType, input and createdAt. *)
Theorem concepts_and_jobs_are_kept (c : Call) (context : ActionAPIContext)
  (d : Db) :
  concepts_kept d (perform c context d) /\ jobs_kept d (perform c context d).
Proof.
  assert (H : forall A (m : Action A),
             preserves (kept d) m -> kept d (snd (m d))).
  { intros A m P. apply P, kept_refl. }
  destruct c; simpl; apply H;
    unfold createConcept, updateConcept, archiveConcept, listMyConcepts,
      getConceptWithDetails, saveStep, deleteStep, saveCheck, deleteCheck,
      createJob, updateJob, listJobs;
    walk kept_leaf.
Qed.

(** ** References between the tables *)

Lemma owned_of_lookup d o i c :
  first (filter (Concepts_id_owner i o) (tConcepts d)) = Some c ->
  owns d o i.
Proof.
  intros L. apply first_filter_Some in L. destruct L as [Hc Hp].
  apply Concepts_id_owner_true in Hp. exists c. tauto.
Qed.

Lemma owns_names d o i : owns d o i -> names_concept d i.
Proof. intros (c & Hc & Hi & _). now exists c. Qed.

Lemma refs_ok_emptyDb (t : Date) : refs_ok (emptyDb t).
Proof. constructor; simpl; intros; contradiction. Qed.

(** The references stay good when the concepts keep their ids and
    owners and every new or rewritten row has a good reference. *)
Lemma refs_ok_step (d d' : Db) :
  refs_ok d ->
  (forall o i, owns d o i -> owns d' o i) ->
  (forall s, In s (tConceptSteps d') ->
     In s (tConceptSteps d) \/ names_concept d' (ConceptSteps.conceptId s)) ->
  (forall k, In k (tConceptChecks d') ->
     In k (tConceptChecks d) \/ names_concept d' (ConceptChecks.conceptId k)) ->
  (forall j, In j (tConceptJobs d') ->
     (exists j0, In j0 (tConceptJobs d) /\
                 ConceptJobs.conceptId j = ConceptJobs.conceptId j0 /\
                 ConceptJobs.ownerId j = ConceptJobs.ownerId j0) \/
     (forall c, ConceptJobs.conceptId j = Some c ->
                names_concept d' c /\
                (c <> 0 -> owns d' (ConceptJobs.ownerId j) c))) ->
  refs_ok d'.
Proof.
  intros R Hown Hs Hk Hj.
  assert (Hn : forall i, names_concept d i -> names_concept d' i).
  { intros i (c & Hc & Hi). apply (owns_names d' (Concepts.ownerId c)).
    apply Hown. now exists c. }
  constructor.
  - intros s Hin. destruct (Hs s Hin) as [H|H]; trivial.
    now apply Hn, (refs_steps d R).
  - intros k Hin. destruct (Hk k Hin) as [H|H]; trivial.
    now apply Hn, (refs_checks d R).
  - intros j c Hin Hc Hnz. destruct (Hj j Hin) as [(j0 & H0 & Ec & Eo)|H].
    + rewrite Eo. apply Hown. apply (refs_jobs d R j0 c); congruence.
    + now apply (H c Hc).
  - intros j c Hin Hc. destruct (Hj j Hin) as [(j0 & H0 & Ec & Eo)|H].
    + apply Hn. apply (refs_jobs_named d R j0 c); congruence.
    + now apply (H c Hc).
Qed.

Lemma owns_update_Concepts d o i (s : Concepts.set) p :
  owns d o i -> owns (snd (update Concepts_table (Concepts.apply s) p d)) o i.
Proof.
  intros (c & Hc & Hi & Ho). cbn.
  exists (if p c then Concepts.apply s c else c). split.
  - apply in_map_iff. now exists c.
  - destruct (p c); auto.
Qed.

Lemma refs_update_Concepts (s : Concepts.set) p :
  preserves refs_ok (update Concepts_table (Concepts.apply s) p).
Proof.
  intros d R. apply (refs_ok_step d); trivial.
  - intros o i. apply owns_update_Concepts.
  - intros x Hx. now left.
  - intros x Hx. now left.
  - intros j Hj. left. now exists j.
Qed.

Lemma refs_insert_Concepts v : preserves refs_ok (insert Concepts_table v).
Proof.
  apply preserves_insert. intros d R. apply (refs_ok_step d); trivial.
  - intros o i (c & Hc & H). cbn. exists c. split; trivial.
    apply in_or_app. now left.
  - intros x Hx. now left.
  - intros x Hx. now left.
  - intros j Hj. left. now exists j.
Qed.

Lemma refs_delete_ConceptSteps p :
  preserves refs_ok (delete ConceptSteps_table p).
Proof.
  intros d R. apply (refs_ok_step d); trivial.
  - intros x Hx. left. cbn in Hx. apply filter_In in Hx. tauto.
  - intros x Hx. now left.
  - intros j Hj. left. now exists j.
Qed.

Lemma refs_delete_ConceptChecks p :
  preserves refs_ok (delete ConceptChecks_table p).
Proof.
  intros d R. apply (refs_ok_step d); trivial.
  - intros x Hx. now left.
  - intros x Hx. left. cbn in Hx. apply filter_In in Hx. tauto.
  - intros j Hj. left. now exists j.
Qed.

Lemma refs_update_ConceptJobs (s : ConceptJobs.set) p :
  preserves refs_ok (update ConceptJobs_table (ConceptJobs.apply s) p).
Proof.
  intros d R. apply (refs_ok_step d); trivial.
  - intros x Hx. now left.
  - intros x Hx. now left.
  - intros j Hj. left. cbn in Hj. apply in_map_iff in Hj.
    destruct Hj as (j0 & <- & H0). exists j0. split; trivial.
    destruct (p j0); split; reflexivity.
Qed.

Ltac refs_leaf :=
  first
    [ apply refs_update_Concepts | apply refs_insert_Concepts
    | apply refs_delete_ConceptSteps | apply refs_delete_ConceptChecks
    | apply refs_update_ConceptJobs ].

Lemma refs_update_ConceptSteps_under (d : Db) (v : ConceptSteps.values) p :
  names_concept d (ConceptSteps.v_conceptId v) ->
  refs_ok d ->
  refs_ok (snd (updateRef ConceptSteps_table (ConceptSteps.apply v) p d)).
Proof.
  intros L R. unfold updateRef. destruct (forallb _ _); [|exact R].
  apply (refs_ok_step d); trivial.
  - intros x Hx. cbn in Hx. apply in_map_iff in Hx.
    destruct Hx as (r & <- & Hr).
    destruct (p r); [right; exact L | now left].
  - intros x Hx. now left.
  - intros j Hj. left. now exists j.
Qed.

Lemma refs_update_ConceptChecks_under (d : Db) (v : ConceptChecks.values) p :
  names_concept d (ConceptChecks.v_conceptId v) ->
  refs_ok d ->
  refs_ok (snd (updateRef ConceptChecks_table (ConceptChecks.apply v) p d)).
Proof.
  intros L R. unfold updateRef. destruct (forallb _ _); [|exact R].
  apply (refs_ok_step d); trivial.
  - intros x Hx. now left.
  - intros x Hx. cbn in Hx. apply in_map_iff in Hx.
    destruct Hx as (r & <- & Hr).
    destruct (p r); [right; exact L | now left].
  - intros j Hj. left. now exists j.
Qed.

Lemma snd_bind_ret {A B : Type} (m : Action A) (f : A -> B) (d : Db) :
  snd ((x <- m ;; ret (f x)) d) = snd (m d).
Proof. unfold bind, ret. now destruct (m d) as [[a|e|e] d']. Qed.

Lemma saveStep_refs input context : preserves refs_ok (saveStep input context).
Proof.
  intros d R. unfold saveStep.
  destruct (requireUser_cases context) as [A|[u E]];
    [rewrite (requireUser_anonymous _ A); exact R | rewrite E].
  run.
  destruct (first (filter _ (tConcepts d))) as [c|] eqn:L; [|exact R].
  apply owned_of_lookup, owns_names in L.
  destruct (truthyNumber (SaveStep.id input)) as [i|]; run.
  - destruct (first (filter _ (tConceptSteps d))) as [e|]; [|exact R].
    destruct (negb _); [exact R|].
    change (refs_ok
              (snd ((updated <- updateRef ConceptSteps_table
                                  (ConceptSteps.apply (Step_baseValues input))
                                  (ConceptSteps_id i) ;;
                     ret (first updated)) d))).
    rewrite snd_bind_ret. now apply refs_update_ConceptSteps_under.
  - destruct (ConceptSteps_references d _); [|exact R]. cbn [snd].
    apply (refs_ok_step d); trivial.
    + intros x Hx. cbn in Hx. apply in_app_or in Hx.
      destruct Hx as [Hx|[<-|[]]]; [now left | right; exact L].
    + intros x Hx. now left.
    + intros j Hj. left. now exists j.
Qed.

Lemma saveCheck_refs input context : preserves refs_ok (saveCheck input context).
Proof.
  intros d R. unfold saveCheck.
  destruct (requireUser_cases context) as [A|[u E]];
    [rewrite (requireUser_anonymous _ A); exact R | rewrite E].
  run.
  destruct (first (filter _ (tConcepts d))) as [c|] eqn:L; [|exact R].
  apply owned_of_lookup, owns_names in L.
  destruct (truthyNumber (SaveCheck.id input)) as [i|]; run.
  - destruct (first (filter _ (tConceptChecks d))) as [e|]; [|exact R].
    destruct (negb _); [exact R|].
    change (refs_ok
              (snd ((updated <- updateRef ConceptChecks_table
                                  (ConceptChecks.apply (Check_baseValues input))
                                  (ConceptChecks_id i) ;;
                     ret (first updated)) d))).
    rewrite snd_bind_ret. now apply refs_update_ConceptChecks_under.
  - destruct (ConceptChecks_references d _); [|exact R]. cbn [snd].
    apply (refs_ok_step d); trivial.
    + intros x Hx. now left.
    + intros x Hx. cbn in Hx. apply in_app_or in Hx.
      destruct Hx as [Hx|[<-|[]]]; [now left | right; exact L].
    + intros j Hj. left. now exists j.
Qed.

Lemma truthyNumber_Some a i : truthyNumber a = Some i -> a = Some i /\ i <> 0.
Proof.
  unfold truthyNumber. destruct a as [n|]; [|discriminate].
  destruct (n =? 0) eqn:E; [discriminate|].
  intros H. injection H as <-. split; trivial. now apply Z.eqb_neq.
Qed.

Lemma truthyNumber_None a : truthyNumber a = None -> a = None \/ a = Some 0.
Proof.
  unfold truthyNumber. destruct a as [n|]; [|now left].
  destruct (n =? 0) eqn:E; [|discriminate].
  apply Z.eqb_eq in E. subst. now right.
Qed.

Lemma createJob_refs input context : preserves refs_ok (createJob input context).
Proof.
  intros d R. unfold createJob.
  destruct (requireUser_cases context) as [A|[u E]];
    [rewrite (requireUser_anonymous _ A); exact R | rewrite E].
  destruct (truthyNumber (CreateJob.conceptId input)) as [i|] eqn:T; run.
  - destruct (first (filter _ (tConcepts d))) as [c|] eqn:L; [|exact R].
    apply owned_of_lookup in L. apply truthyNumber_Some in T.
    destruct T as [T _]. run.
    destruct (ConceptJobs_references d _); [|exact R]. cbn [snd].
    apply (refs_ok_step d); trivial.
    + intros x Hx. now left.
    + intros x Hx. now left.
    + intros j Hj. cbn in Hj. apply in_app_or in Hj.
      destruct Hj as [Hj|[<-|[]]]; [left; now exists j | right].
      cbn. intros c' Ec. rewrite T in Ec. injection Ec as <-.
      split; [now apply (owns_names d (User.id u)) | intros _; exact L].
  - apply truthyNumber_None in T.
    destruct (ConceptJobs_references d _) eqn:F; [|exact R]. cbn [snd].
    apply (refs_ok_step d); trivial.
    + intros x Hx. now left.
    + intros x Hx. now left.
    + intros j Hj. cbn in Hj. apply in_app_or in Hj.
      destruct Hj as [Hj|[<-|[]]]; [left; now exists j | right].
      cbn. intros c' Ec. destruct T as [T|T]; rewrite T in Ec;
        [discriminate | injection Ec as <-].
      unfold ConceptJobs_references in F. cbn in F. rewrite T in F.
      split; [now apply Concepts_has_id_true | intros N; now elim N].
Qed.

Lemma perform_refs (c : Call) (context : ActionAPIContext) (d : Db) :
  refs_ok d -> refs_ok (perform c context d).
Proof.
  destruct c; simpl;
    try apply saveStep_refs; try apply saveCheck_refs;
    try apply createJob_refs;
    match goal with
    | |- refs_ok ?d -> refs_ok (snd (?m ?d)) =>
        change (preserves refs_ok m) || idtac
    end;
    unfold createConcept, updateConcept, archiveConcept, listMyConcepts,
      getConceptWithDetails, deleteStep, deleteCheck, updateJob, listJobs;
    walk refs_leaf.
Qed.

Lemma reachable_db_demo : reachable db_demo.
Proof.
  unfold db_demo. cbv zeta.
  apply (reach_call (CallCreateJob _)).
  apply (reach_call (CallSaveCheck _)).
  apply (reach_call (CallSaveStep _)).
  apply (reach_call (CallSaveCheck _)).
  apply (reach_call (CallSaveStep _)).
  apply (reach_call (CallCreateConcept _)).
  apply (reach_call (CallCreateConcept _)).
  apply reach_empty.
Qed.

Lemma reachable_refs (d : Db) : reachable d -> refs_ok d.
Proof.
  induction 1 as [t | c context d _ IH | d f _ IH].
  - apply refs_ok_emptyDb.
  - now apply perform_refs.
  - destruct IH as [S K J N]. constructor; assumption.
Qed.

(** X4: in every store the actions can produce, the conceptId of every
    step and of every check is the id of a stored concept, and the
    conceptId of every job, unless it is unset or 0, is the id of a
    concept of the job's owner. *)
Theorem stored_references_name_concepts (d : Db) :
  reachable d ->
  (forall s, In s (tConceptSteps d) ->
     exists c, In c (tConcepts d) /\
               Concepts.id c = ConceptSteps.conceptId s) /\
  (forall k, In k (tConceptChecks d) ->
     exists c, In c (tConcepts d) /\
               Concepts.id c = ConceptChecks.conceptId k) /\
  (forall j i, In j (tConceptJobs d) ->
     ConceptJobs.conceptId j = Some i -> i <> 0 ->
     exists c, In c (tConcepts d) /\ Concepts.id c = i /\
               Concepts.ownerId c = ConceptJobs.ownerId j).
Proof.
  intros H. destruct (reachable_refs d H) as [S K J N].
  split; [exact S | split; [exact K | exact J]].
Qed.

Lemma stored_references_name_concepts_witness :
  reachable db_demo /\
  (forall s, In s (tConceptSteps db_demo) ->
     exists c, In c (tConcepts db_demo) /\
               Concepts.id c = ConceptSteps.conceptId s).
Proof.
  split; [exact reachable_db_demo|].
  exact (proj1 (stored_references_name_concepts db_demo reachable_db_demo)).
Defined.

(** X5: in every store the actions can produce, the ids of each table
    are pairwise distinct and positive. *)
Theorem stored_ids_are_distinct (d : Db) :
  reachable d ->
  (NoDup (map Concepts.id (tConcepts d)) /\
   Forall (fun r => 0 < Concepts.id r) (tConcepts d)) /\
  (NoDup (map ConceptSteps.id (tConceptSteps d)) /\
   Forall (fun r => 0 < ConceptSteps.id r) (tConceptSteps d)) /\
  (NoDup (map ConceptChecks.id (tConceptChecks d)) /\
   Forall (fun r => 0 < ConceptChecks.id r) (tConceptChecks d)) /\
  (NoDup (map ConceptJobs.id (tConceptJobs d)) /\
   Forall (fun r => 0 < ConceptJobs.id r) (tConceptJobs d)).
Proof.
  intros H. destruct (reachable_wf d H) as [C S K J].
  split; [exact C | split; [exact S | split; [exact K | exact J]]].
Qed.

Lemma stored_ids_are_distinct_witness :
  reachable db_demo /\ NoDup (map Concepts.id (tConcepts db_demo)).
Proof.
  split; [exact reachable_db_demo|].
  exact (proj1 (proj1 (stored_ids_are_distinct db_demo reachable_db_demo))).
Defined.

(** ** listJobs on the stores the actions produce *)

(** X6: in every store the actions can produce, listJobs without a
    conceptId filter (or with the filter 0) returns, in storage order,
    all the jobs of the caller that have the status asked for: the test
    against the ids of the caller's concepts removes none of them. *)
Theorem listJobs_returns_all_own_jobs (d : Db) (u : User.t)
  (input : Optional ListJobs.input) :
  reachable d ->
  truthyNumber (optChain input ListJobs.conceptId) = None ->
  listJobs input (signedIn u) d
  = (Ok (filter (fun j => ConceptJobs_owner (User.id u) j
                          && status_matches input j) (tConceptJobs d)), d).
Proof.
  intros H T. rewrite listJobs_runs by (intros f E; congruence).
  f_equal. f_equal. apply filter_ext_in. intros j Hj.
  unfold listJobs_visible. rewrite T.
  destruct (ConceptJobs_owner (User.id u) j) eqn:Ho; trivial. simpl.
  destruct (ConceptJobs.conceptId j) as [c|] eqn:Ec; trivial.
  destruct (c =? 0) eqn:Ez; trivial. simpl.
  apply Z.eqb_neq in Ez. unfold ConceptJobs_owner in Ho.
  apply String.eqb_eq in Ho.
  pose proof (refs_jobs d (reachable_refs d H) j c Hj Ec Ez) as Hown.
  rewrite Ho in Hown. apply owns_b_true in Hown. now rewrite Hown.
Qed.

Lemma listJobs_returns_all_own_jobs_witness :
  reachable db_demo /\
  listJobs None (signedIn alice) db_demo = (Ok [job_1], db_demo).
Proof.
  split; [exact reachable_db_demo|].
  exact (listJobs_returns_all_own_jobs db_demo alice None
           reachable_db_demo eq_refl).
Defined.

(** ** What a request does to the rows of others *)

Section Others.
Context {R : Type}.
Variable q : R -> bool.

Lemma filter_update_other (p : R -> bool) (f : R -> R) (l : list R) :
  (forall r, In r l -> p r = true -> q r = false /\ q (f r) = false) ->
  filter q (map (fun r => if p r then f r else r) l) = filter q l.
Proof.
  induction l as [|a l IH]; simpl; intros H; [reflexivity|].
  rewrite IH by (intros r Hr; apply H; now right).
  destruct (p a) eqn:E; trivial.
  destruct (H a (or_introl eq_refl) E) as [-> ->]. reflexivity.
Qed.

Lemma filter_delete_other (p : R -> bool) (l : list R) :
  (forall r, In r l -> p r = true -> q r = false) ->
  filter q (filter (fun r => negb (p r)) l) = filter q l.
Proof.
  induction l as [|a l IH]; simpl; intros H; [reflexivity|].
  specialize (IH (fun r Hr => H r (or_intror Hr))).
  destruct (p a) eqn:E; simpl.
  - now rewrite (H a (or_introl eq_refl) E).
  - now rewrite IH.
Qed.

Lemma filter_insert_other (x : R) (l : list R) :
  q x = false -> filter q (l ++ [x]) = filter q l.
Proof.
  intros H. rewrite filter_app. simpl. rewrite H. apply app_nil_r.
Qed.
End Others.

Lemma isolated_refl o d : isolated o d d.
Proof. repeat split. Qed.

Lemma owns_b_of_lookup d o i c :
  first (filter (Concepts_id_owner i o) (tConcepts d)) = Some c ->
  owns_b d o i = true.
Proof. intros L. apply owns_b_true. now apply (owned_of_lookup d o i c). Qed.

Lemma createConcept_isolated d u input :
  isolated (User.id u) d (snd (createConcept input (signedIn u) d)).
Proof.
  unfold createConcept. run. repeat split. cbn.
  unfold others_concepts. cbn. apply filter_insert_other.
  unfold Concepts_owner. cbn. now rewrite String.eqb_refl.
Qed.

Lemma Concepts_update_isolated d o i (s : Concepts.set) :
  isolated o d
    (snd (update Concepts_table (Concepts.apply s) (Concepts_id_owner i o) d)).
Proof.
  repeat split. unfold others_concepts. cbn. apply filter_update_other.
  intros r _ Hp. apply Concepts_id_owner_true in Hp. destruct Hp as [_ Ho].
  unfold Concepts_owner. cbn. rewrite Ho, String.eqb_refl. now split.
Qed.

Lemma updateConcept_isolated d u input :
  isolated (User.id u) d (snd (updateConcept input (signedIn u) d)).
Proof.
  unfold updateConcept. run.
  destruct (first (filter _ (tConcepts d))); [|apply isolated_refl].
  destruct (_ =? _)%nat; [apply isolated_refl|].
  apply (Concepts_update_isolated d (User.id u)).
Qed.

Lemma archiveConcept_isolated d u id :
  isolated (User.id u) d (snd (archiveConcept id (signedIn u) d)).
Proof.
  unfold archiveConcept. run.
  destruct (first _); apply (Concepts_update_isolated d (User.id u)).
Qed.

Lemma saveStep_isolated d u input :
  wf d -> isolated (User.id u) d (snd (saveStep input (signedIn u) d)).
Proof.
  intros W. unfold saveStep. run.
  destruct (first (filter _ (tConcepts d))) as [c|] eqn:L;
    [|apply isolated_refl].
  apply owns_b_of_lookup in L.
  destruct (truthyNumber (SaveStep.id input)) as [i|]; run.
  - destruct (first (filter _ (tConceptSteps d))) as [e|] eqn:F;
      [|apply isolated_refl].
    destruct (ConceptSteps.conceptId e =? SaveStep.conceptId input) eqn:Ec;
      [|apply isolated_refl].
    apply Z.eqb_eq in Ec. apply first_filter_Some in F. destruct F as [He Hi].
    unfold ConceptSteps_id in Hi. apply Z.eqb_eq in Hi.
    destruct (wf_ConceptSteps d W) as (ND & _).
    change (isolated (User.id u) d
              (snd ((updated <- updateRef ConceptSteps_table
                                  (ConceptSteps.apply (Step_baseValues input))
                                  (ConceptSteps_id i) ;;
                     ret (first updated)) d))).
    rewrite snd_bind_ret. unfold updateRef.
    destruct (forallb _ _); [|apply isolated_refl].
    repeat split. unfold others_steps. cbn. apply filter_update_other.
    intros r Hr Hp. unfold ConceptSteps_id in Hp. apply Z.eqb_eq in Hp.
    assert (r = e)
      by (apply (unique_id ConceptSteps.id (tConceptSteps d)); congruence).
    subst r. cbn. now rewrite Ec, L.
  - destruct (ConceptSteps_references d _); [|apply isolated_refl].
    repeat split. unfold others_steps. cbn. apply filter_insert_other.
    cbn. now rewrite L.
Qed.

Lemma saveCheck_isolated d u input :
  wf d -> isolated (User.id u) d (snd (saveCheck input (signedIn u) d)).
Proof.
  intros W. unfold saveCheck. run.
  destruct (first (filter _ (tConcepts d))) as [c|] eqn:L;
    [|apply isolated_refl].
  apply owns_b_of_lookup in L.
  destruct (truthyNumber (SaveCheck.id input)) as [i|]; run.
  - destruct (first (filter _ (tConceptChecks d))) as [e|] eqn:F;
      [|apply isolated_refl].
    destruct (ConceptChecks.conceptId e =? SaveCheck.conceptId input) eqn:Ec;
      [|apply isolated_refl].
    apply Z.eqb_eq in Ec. apply first_filter_Some in F. destruct F as [He Hi].
    unfold ConceptChecks_id in Hi. apply Z.eqb_eq in Hi.
    destruct (wf_ConceptChecks d W) as (ND & _).
    change (isolated (User.id u) d
              (snd ((updated <- updateRef ConceptChecks_table
                                  (ConceptChecks.apply (Check_baseValues input))
                                  (ConceptChecks_id i) ;;
                     ret (first updated)) d))).
    rewrite snd_bind_ret. unfold updateRef.
    destruct (forallb _ _); [|apply isolated_refl].
    repeat split. unfold others_checks. cbn. apply filter_update_other.
    intros r Hr Hp. unfold ConceptChecks_id in Hp. apply Z.eqb_eq in Hp.
    assert (r = e)
      by (apply (unique_id ConceptChecks.id (tConceptChecks d)); congruence).
    subst r. cbn. now rewrite Ec, L.
  - destruct (ConceptChecks_references d _); [|apply isolated_refl].
    repeat split. unfold others_checks. cbn. apply filter_insert_other.
    cbn. now rewrite L.
Qed.

Lemma deleteStep_isolated d u input :
  isolated (User.id u) d (snd (deleteStep input (signedIn u) d)).
Proof.
  unfold deleteStep. run.
  destruct (first (filter _ (tConcepts d))) as [c|] eqn:L;
    [|apply isolated_refl].
  apply owns_b_of_lookup in L. run.
  assert (H : isolated (User.id u) d
                (store ConceptSteps_table d
                   (filter (fun r => negb (ConceptSteps_id_concept
                                             (DeleteStep.id input)
                                             (DeleteStep.conceptId input) r))
                      (tConceptSteps d)))).
  { repeat split. unfold others_steps. cbn. apply filter_delete_other.
    intros r _ Hp. unfold ConceptSteps_id_concept in Hp.
    apply andb_true_iff in Hp. destruct Hp as [_ Hc]. apply Z.eqb_eq in Hc.
    now rewrite Hc, L. }
  destruct (first _); exact H.
Qed.

Lemma deleteCheck_isolated d u input :
  isolated (User.id u) d (snd (deleteCheck input (signedIn u) d)).
Proof.
  unfold deleteCheck. run.
  destruct (first (filter _ (tConcepts d))) as [c|] eqn:L;
    [|apply isolated_refl].
  apply owns_b_of_lookup in L. run.
  assert (H : isolated (User.id u) d
                (store ConceptChecks_table d
                   (filter (fun r => negb (ConceptChecks_id_concept
                                             (DeleteCheck.id input)
                                             (DeleteCheck.conceptId input) r))
                      (tConceptChecks d)))).
  { repeat split. unfold others_checks. cbn. apply filter_delete_other.
    intros r _ Hp. unfold ConceptChecks_id_concept in Hp.
    apply andb_true_iff in Hp. destruct Hp as [_ Hc]. apply Z.eqb_eq in Hc.
    now rewrite Hc, L. }
  destruct (first _); exact H.
Qed.

Lemma createJob_isolated d u input :
  isolated (User.id u) d (snd (createJob input (signedIn u) d)).
Proof.
  assert (H : forall j, ConceptJobs.ownerId j = User.id u ->
                isolated (User.id u) d
                  (store ConceptJobs_table d (tConceptJobs d ++ [j]))).
  { intros j Ho. repeat split. unfold others_jobs. cbn.
    apply filter_insert_other. unfold ConceptJobs_owner.
    now rewrite Ho, String.eqb_refl. }
  unfold createJob.
  destruct (truthyNumber (CreateJob.conceptId input)) as [i|]; run.
  - destruct (first (filter _ (tConcepts d))); [|apply isolated_refl].
    cbv beta iota.
    destruct (ConceptJobs_references d _); [|apply isolated_refl].
    now apply H.
  - destruct (ConceptJobs_references d _); [|apply isolated_refl].
    now apply H.
Qed.

Lemma updateJob_isolated d u input :
  wf d -> isolated (User.id u) d (snd (updateJob input (signedIn u) d)).
Proof.
  intros W. unfold updateJob. run.
  destruct (first (filter _ (tConceptJobs d))) as [e|] eqn:F;
    [|apply isolated_refl].
  destruct (_ =? _)%nat; [apply isolated_refl|].
  apply first_filter_Some in F. destruct F as [He Hp].
  apply ConceptJobs_id_owner_true in Hp. destruct Hp as [Hi Ho].
  destruct (wf_ConceptJobs d W) as (ND & _).
  repeat split. unfold others_jobs. cbn. apply filter_update_other.
  intros r Hr Hp. unfold ConceptJobs_id in Hp. apply Z.eqb_eq in Hp.
  assert (r = e)
    by (apply (unique_id ConceptJobs.id (tConceptJobs d)); congruence).
  subst r. unfold ConceptJobs_owner. cbn. now rewrite Ho, String.eqb_refl.
Qed.

Lemma read_isolated {A : Type} (m : Action A) o d :
  preserves (fun d' => d' = d) m -> isolated o d (snd (m d)).
Proof. intros P. rewrite (P d eq_refl). apply isolated_refl. Qed.

(** X7: a request of a signed-in caller leaves what is not the caller's
    as it is: the concepts and the jobs of other owners, and the steps
    and checks of concepts the caller does not own, are after the
    request the rows they were before it, in the same order, whichever
    action is called, with whatever input, and whether it returns or
    throws. *)
Theorem requests_leave_others_rows (c : Call) (u : User.t) (d : Db) :
  wf d -> isolated (User.id u) d (perform c (signedIn u) d).
Proof.
  intros W. destruct c; cbv [perform].
  - apply createConcept_isolated.
  - apply updateConcept_isolated.
  - apply archiveConcept_isolated.
  - apply read_isolated. unfold listMyConcepts. preserve.
  - apply read_isolated. unfold getConceptWithDetails. preserve.
  - now apply saveStep_isolated.
  - apply deleteStep_isolated.
  - now apply saveCheck_isolated.
  - apply deleteCheck_isolated.
  - apply createJob_isolated.
  - now apply updateJob_isolated.
  - apply read_isolated. unfold listJobs. preserve.
Qed.

Lemma requests_leave_others_rows_witness :
  wf db_demo /\
  others_concepts (User.id bob)
    (perform (CallArchiveConcept 1) (signedIn bob) db_demo)
  = [concept_1].
Proof.
  split; [exact wf_db_demo|].
  exact (proj1 (requests_leave_others_rows (CallArchiveConcept 1) bob db_demo
                  wf_db_demo)).
Defined.

(** ** createConcept *)

Lemma fresh_concept_id_unused (d : Db) (o : string) :
  filter (Concepts_id_owner (nextId (map Concepts.id (tConcepts d))) o)
    (tConcepts d) = [].
Proof.
  apply filter_none. intros r Hr. apply not_true_is_false.
  intros E. apply Concepts_id_owner_true in E. destruct E as [E _].
  pose proof (nextId_above (map Concepts.id (tConcepts d)) (Concepts.id r)
                (in_map Concepts.id _ _ Hr)). lia.
Qed.

Lemma fresh_concept_has_no_steps (d : Db) :
  refs_ok d ->
  filter (ConceptSteps_concept (nextId (map Concepts.id (tConcepts d))))
    (tConceptSteps d) = [] /\
  filter (ConceptChecks_concept (nextId (map Concepts.id (tConcepts d))))
    (tConceptChecks d) = [].
Proof.
  intros R.
  assert (B : forall c, In c (tConcepts d) ->
                Concepts.id c < nextId (map Concepts.id (tConcepts d))).
  { intros c Hc. apply nextId_above. now apply in_map. }
  split; apply filter_none; intros r Hr; apply not_true_is_false; intros E;
    apply Z.eqb_eq in E.
  - destruct (refs_steps d R r Hr) as (c & Hc & Hi). specialize (B c Hc). lia.
  - destruct (refs_checks d R r Hr) as (c & Hc & Hi). specialize (B c Hc). lia.
Qed.

(** X8: createConcept stores a concept of the caller after the stored
    ones, under an id above every stored id, with the given texts,
    difficulty "beginner" and status "draft" unless given; createdAt is
    the first reading of the clock in the request and updatedAt the
    second.  In a store the actions can produce, the creator then gets
    it back from getConceptWithDetails with no steps and no checks, and
    as the last of the concepts listMyConcepts returns, while any other
    caller gets NOT_FOUND for its id. *)
Theorem createConcept_then_read (d : Db) (u : User.t)
  (input : CreateConcept.input) :
  reachable d ->
  exists c d',
    createConcept input (signedIn u) d = (Ok (Some c), d') /\
    tConcepts d' = tConcepts d ++ [c] /\
    (forall r, In r (tConcepts d) -> Concepts.id r < Concepts.id c) /\
    Concepts.ownerId c = User.id u /\
    Concepts.title c = CreateConcept.title input /\
    Concepts.description c = CreateConcept.description input /\
    Concepts.subject c = CreateConcept.subject input /\
    Concepts.topic c = CreateConcept.topic input /\
    Concepts.tags c = CreateConcept.tags input /\
    Concepts.difficulty c =
      match CreateConcept.difficulty input with
      | Some v => v
      | None => beginner
      end /\
    Concepts.status c =
      match CreateConcept.status input with
      | Some v => v
      | None => draft
      end /\
    Concepts.createdAt c = clock d /\
    Concepts.updatedAt c = readings d 1 /\
    getConceptWithDetails (Concepts.id c) (signedIn u) d'
    = (Ok (mkDetails c [] []), d') /\
    listMyConcepts None (signedIn u) d'
    = (Ok (filter (Concepts_owner (User.id u)) (tConcepts d) ++ [c]), d') /\
    (forall v : User.t,
       User.id v <> User.id u ->
       getConceptWithDetails (Concepts.id c) (signedIn v) d'
       = NotFound "Concept" d').
Proof.
  intros H. pose proof (reachable_refs d H) as Rf.
  destruct (fresh_concept_has_no_steps d Rf) as [Hs Hk].
  eexists. eexists. split; [reflexivity|]. split; [reflexivity|]. split.
  { intros r Hr. cbn [Concepts.id]. apply nextId_above. now apply in_map. }
  repeat (split; [reflexivity|]). split; [|split].
  - unfold getConceptWithDetails. run. cbn.
    rewrite filter_app, (fresh_concept_id_unused d (User.id u)). cbn.
    unfold Concepts_id_owner at 1. cbn.
    rewrite Z.eqb_refl, String.eqb_refl. cbn. now rewrite Hs, Hk.
  - unfold listMyConcepts. run. cbn. rewrite filter_all, filter_app. cbn.
    unfold Concepts_owner at 2. cbn. now rewrite String.eqb_refl.
  - intros v Hv. unfold getConceptWithDetails. run. cbn.
    rewrite filter_app, (fresh_concept_id_unused d (User.id v)). cbn.
    unfold Concepts_id_owner at 1. cbn.
    apply String.eqb_neq in Hv. rewrite String.eqb_sym in Hv.
    now rewrite Z.eqb_refl, Hv.
Qed.

Lemma createConcept_then_read_witness :
  reachable db_demo /\
  exists c d',
    createConcept (CreateConcept.mk "Pointers" None None None None None None)
      (signedIn bob) db_demo = (Ok (Some c), d') /\
    Concepts.ownerId c = "bob" /\ Concepts.status c = draft.
Proof.
  split; [exact reachable_db_demo|].
  destruct (createConcept_then_read db_demo bob
              (CreateConcept.mk "Pointers" None None None None None None)
              reachable_db_demo)
    as (c & d' & E & _ & _ & Ho & _ & _ & _ & _ & _ & _ & Hs & _).
  exists c, d'. split; [exact E | split; [exact Ho | exact Hs]].
Defined.

(** ** archiveConcept *)

Lemma in_replace_by {R : Type} (key : R -> Z) (i : Z) (new : R)
  (l : list R) (r : R) :
  In r l -> key r = i -> In new (replace_by key i new l).
Proof.
  intros Hr Hk. unfold replace_by. apply in_map_iff. exists r.
  split; trivial. subst i. now rewrite Z.eqb_refl.
Qed.

Lemma Concepts_by_key (c : Concepts.row) (o : string) :
  Concepts.ownerId c = o ->
  Concepts_id_owner (Concepts.id c) o c = true /\
  forall (l : list Concepts.row) x,
    In x l -> Concepts_id_owner (Concepts.id c) o x = true ->
    Concepts.id x = Concepts.id c.
Proof.
  intros Ho. split; [now apply Concepts_id_owner_true|].
  intros l x _ Hx. now apply Concepts_id_owner_true in Hx.
Qed.

Lemma archiveConcept_runs (d : Db) (u : User.t) (c : Concepts.row) :
  wf d -> In c (tConcepts d) -> Concepts.ownerId c = User.id u ->
  archiveConcept (Concepts.id c) (signedIn u) d
  = (Ok (Concepts.apply (archiveSet (clock d)) c),
     store Concepts_table d
       (replace_by Concepts.id (Concepts.id c)
          (Concepts.apply (archiveSet (clock d)) c) (tConcepts d))).
Proof.
  intros W Hc Ho. destruct (wf_Concepts d W) as (ND & _).
  destruct (Concepts_by_key c (User.id u) Ho) as [Hp Hk].
  unfold archiveConcept. run.
  rewrite (returning_unique Concepts.id _ c _ ND Hc Hp (Hk _)).
  now rewrite (update_unique Concepts.id _ c _ ND Hc Hp (Hk _)).
Qed.

Lemma updateConcept_writes (d : Db) (u : User.t) (c : Concepts.row)
  (input : UpdateConcept.input) :
  wf d -> In c (tConcepts d) -> Concepts.ownerId c = User.id u ->
  UpdateConcept.id input = Concepts.id c ->
  ~ nothing_provided input ->
  updateConcept input (signedIn u) d
  = (Ok (Some (Concepts.apply (withUpdatedAt (updateData input) (clock d)) c)),
     store Concepts_table d
       (replace_by Concepts.id (Concepts.id c)
          (Concepts.apply (withUpdatedAt (updateData input) (clock d)) c)
          (tConcepts d))).
Proof.
  intros W Hc Ho Hi N. destruct (wf_Concepts d W) as (ND & _).
  destruct (Concepts_by_key c (User.id u) Ho) as [Hp Hk].
  unfold updateConcept. run.
  rewrite Hi, (lookup_concept d (User.id u) c W Hc Ho).
  destruct (Concepts_keys_length (updateData input) =? 0)%nat eqn:E.
  - apply Nat.eqb_eq in E. apply keys_length_0 in E. contradiction.
  - rewrite (returning_unique Concepts.id _ c _ ND Hc Hp (Hk _)).
    now rewrite (update_unique Concepts.id _ c _ ND Hc Hp (Hk _)).
Qed.

Lemma wf_at_time (d : Db) (t : Date) : wf d -> wf (at_time d t).
Proof. intros [C S K J]. constructor; assumption. Qed.

(** X9: archiveConcept on a concept [c] of the caller returns, and
    stores in place of [c], the row that is [c] with status "archived"
    and updatedAt the current time; no other field, row or table
    changes.  Archiving it again later does not fail: the call returns
    the archived row with updatedAt moved to the later time. *)
Theorem archiveConcept_archives (d : Db) (u : User.t) (c : Concepts.row) :
  wf d -> In c (tConcepts d) -> Concepts.ownerId c = User.id u ->
  exists c1 d1,
    archiveConcept (Concepts.id c) (signedIn u) d = (Ok c1, d1) /\
    d1 = store Concepts_table d
           (replace_by Concepts.id (Concepts.id c) c1 (tConcepts d)) /\
    Concepts.status c1 = archived /\
    Concepts.updatedAt c1 = clock d /\
    Concepts.id c1 = Concepts.id c /\
    Concepts.ownerId c1 = Concepts.ownerId c /\
    Concepts.title c1 = Concepts.title c /\
    Concepts.description c1 = Concepts.description c /\
    Concepts.subject c1 = Concepts.subject c /\
    Concepts.topic c1 = Concepts.topic c /\
    Concepts.tags c1 = Concepts.tags c /\
    Concepts.difficulty c1 = Concepts.difficulty c /\
    Concepts.createdAt c1 = Concepts.createdAt c /\
    forall t : Date,
      exists c2 d2,
        archiveConcept (Concepts.id c) (signedIn u) (at_time d1 t)
        = (Ok c2, d2) /\
        Concepts.status c2 = archived /\
        Concepts.updatedAt c2 = t /\
        Concepts.title c2 = Concepts.title c.
Proof.
  intros W Hc Ho.
  pose proof (archiveConcept_runs d u c W Hc Ho) as E.
  eexists. eexists. split; [exact E|]. repeat (split; [reflexivity|]).
  intros t.
  set (c1 := Concepts.apply (archiveSet (clock d)) c) in *.
  assert (W1 : wf (snd (archiveConcept (Concepts.id c) (signedIn u) d)))
    by now apply archiveConcept_wf.
  rewrite E in W1. cbn [snd] in W1. apply (wf_at_time _ t) in W1.
  assert (H1 : In c1 (tConcepts
                       (at_time
                          (store Concepts_table d
                             (replace_by Concepts.id (Concepts.id c) c1
                                (tConcepts d))) t)))
    by (cbn; now apply (in_replace_by Concepts.id _ c1 _ c)).
  pose proof (archiveConcept_runs _ u c1 W1 H1 Ho) as E1.
  eexists. eexists. split; [exact E1|]. repeat split.
Qed.

Lemma archiveConcept_archives_witness :
  wf db_demo /\ In concept_1 (tConcepts db_demo) /\
  exists c1,
    fst (archiveConcept 1 (signedIn alice) db_demo) = Ok c1 /\
    Concepts.status c1 = archived.
Proof.
  assert (Hin : In concept_1 (tConcepts db_demo)) by (left; reflexivity).
  split; [exact wf_db_demo | split; [exact Hin|]].
  destruct (archiveConcept_archives db_demo alice concept_1
              wf_db_demo Hin eq_refl) as (c1 & d1 & E & _ & Hs & _).
  exists c1. split; [|exact Hs].
  change (fst (archiveConcept (Concepts.id concept_1) (signedIn alice) db_demo)
          = Ok c1).
  now rewrite E.
Defined.

(** X10: archiving is not final: after archiveConcept on a concept of
    the caller, updateConcept with a status gives the concept that
    status again, keeping its other fields. *)
Theorem archived_concept_can_be_updated (d : Db) (u : User.t)
  (c : Concepts.row) (s : ConceptStatus) :
  wf d -> In c (tConcepts d) -> Concepts.ownerId c = User.id u ->
  exists c1 d1 c2 d2,
    archiveConcept (Concepts.id c) (signedIn u) d = (Ok c1, d1) /\
    Concepts.status c1 = archived /\
    updateConcept
      (UpdateConcept.mk (Concepts.id c) None None None None None None (Some s))
      (signedIn u) d1 = (Ok (Some c2), d2) /\
    Concepts.status c2 = s /\
    Concepts.id c2 = Concepts.id c /\
    Concepts.title c2 = Concepts.title c /\
    Concepts.description c2 = Concepts.description c /\
    Concepts.subject c2 = Concepts.subject c /\
    Concepts.topic c2 = Concepts.topic c /\
    Concepts.tags c2 = Concepts.tags c /\
    Concepts.difficulty c2 = Concepts.difficulty c.
Proof.
  intros W Hc Ho.
  pose proof (archiveConcept_runs d u c W Hc Ho) as E.
  set (c1 := Concepts.apply (archiveSet (clock d)) c) in *.
  assert (W1 : wf (snd (archiveConcept (Concepts.id c) (signedIn u) d)))
    by now apply archiveConcept_wf.
  rewrite E in W1. cbn [snd] in W1.
  assert (H1 : In c1 (tConcepts
                       (store Concepts_table d
                          (replace_by Concepts.id (Concepts.id c) c1
                             (tConcepts d)))))
    by (cbn; now apply (in_replace_by Concepts.id _ c1 _ c)).
  assert (N : ~ nothing_provided
                (UpdateConcept.mk (Concepts.id c) None None None None None
                   None (Some s))).
  { intros (_ & _ & _ & _ & _ & _ & N). discriminate N. }
  pose proof (updateConcept_writes _ u c1
                (UpdateConcept.mk (Concepts.id c) None None None None None
                   None (Some s)) W1 H1 Ho eq_refl N) as E2.
  eexists. eexists. eexists. eexists.
  split; [exact E|]. split; [reflexivity|]. split; [exact E2|].
  repeat split.
Qed.

Lemma archived_concept_can_be_updated_witness :
  wf db_demo /\ In concept_1 (tConcepts db_demo) /\
  exists c1 d1 c2 d2,
    archiveConcept 1 (signedIn alice) db_demo = (Ok c1, d1) /\
    updateConcept
      (UpdateConcept.mk 1 None None None None None None (Some published))
      (signedIn alice) d1 = (Ok (Some c2), d2) /\
    Concepts.status c2 = published.
Proof.
  assert (Hin : In concept_1 (tConcepts db_demo)) by (left; reflexivity).
  split; [exact wf_db_demo | split; [exact Hin|]].
  destruct (archived_concept_can_be_updated db_demo alice concept_1 published
              wf_db_demo Hin eq_refl)
    as (c1 & d1 & c2 & d2 & E1 & _ & E2 & Hs & _).
  exists c1, d1, c2, d2. split; [exact E1 | split; [exact E2 | exact Hs]].
Defined.

(** ** listMyConcepts *)

Lemma ConceptStatus_eqb_eq (a b : ConceptStatus) :
  ConceptStatus_eqb a b = true <-> a = b.
Proof. destruct a, b; simpl; split; intros H; congruence. Qed.

Lemma status_filter_true (o : Optional ConceptStatus) (x : ConceptStatus) :
  match o with
  | Some s => ConceptStatus_eqb x s
  | None => true
  end = true <->
  (forall s, o = Some s -> x = s).
Proof.
  destruct o as [s|]; [rewrite ConceptStatus_eqb_eq|]; split; intros H.
  - intros s' E. congruence.
  - now apply H.
  - intros s E. discriminate.
  - reflexivity.
Qed.

Lemma text_filter_true (o : Optional string) (col : option string) :
  match truthyString o with
  | Some s => strictEqText col s
  | None => true
  end = true <->
  (forall s, o = Some s -> s <> "" -> col = Some s).
Proof.
  unfold truthyString, strictEqText. destruct o as [s|].
  - destruct (String.eqb s "") eqn:E.
    + apply String.eqb_eq in E. split; [|reflexivity].
      intros _ s' E' N. congruence.
    + apply String.eqb_neq in E. destruct col as [x|]; split; intros H.
      * apply String.eqb_eq in H. intros s' E' _. congruence.
      * apply String.eqb_eq. specialize (H s eq_refl E). congruence.
      * discriminate.
      * specialize (H s eq_refl E). discriminate.
  - split; [|reflexivity]. intros _ s E. discriminate.
Qed.

(** X11: listMyConcepts returns, in storage order, the concepts of the
    caller that pass the filters and nothing else: a concept of another
    owner is never returned; a status filter keeps the concepts with
    that status, a subject or topic filter that is not the empty string
    keeps the concepts whose subject or topic is that string.  Called
    without input it returns all the concepts of the caller. *)
Theorem listMyConcepts_lists_own (d : Db) (u : User.t)
  (input : Optional ListMyConcepts.input) :
  exists cs,
    listMyConcepts input (signedIn u) d = (Ok cs, d) /\
    (forall c,
       In c cs <->
       In c (tConcepts d) /\
       Concepts.ownerId c = User.id u /\
       (forall s, optChain input ListMyConcepts.status = Some s ->
                  Concepts.status c = s) /\
       (forall s, optChain input ListMyConcepts.subject = Some s ->
                  s <> "" -> Concepts.subject c = Some s) /\
       (forall s, optChain input ListMyConcepts.topic = Some s ->
                  s <> "" -> Concepts.topic c = Some s)) /\
    (exists keep, cs = filter keep (tConcepts d)) /\
    (input = None -> cs = filter (Concepts_owner (User.id u)) (tConcepts d)).
Proof.
  eexists. split; [reflexivity|]. split; [|split].
  - intros c. rewrite filter_In, filter_In, !andb_true_iff.
    rewrite status_filter_true, !text_filter_true.
    unfold Concepts_owner. rewrite String.eqb_eq. tauto.
  - rewrite filter_twice. eexists. reflexivity.
  - intros ->. cbn. now rewrite filter_all.
Qed.

(** ** Saving under an id that is not stored *)

(** X12: saveStep (saveCheck) with an id other than 0 that no stored
    step (check) has fails with NOT_FOUND on a concept of the caller,
    and writes nothing: an id is never taken from the caller for a new
    row. *)
Theorem save_unknown_id_is_NotFound (d : Db) (u : User.t) :
  (forall (input : SaveStep.input) (i : Z),
     owns d (User.id u) (SaveStep.conceptId input) ->
     SaveStep.id input = Some i -> i <> 0 ->
     (forall s, In s (tConceptSteps d) -> ConceptSteps.id s <> i) ->
     saveStep input (signedIn u) d = NotFound "Step" d) /\
  (forall (input : SaveCheck.input) (i : Z),
     owns d (User.id u) (SaveCheck.conceptId input) ->
     SaveCheck.id input = Some i -> i <> 0 ->
     (forall k, In k (tConceptChecks d) -> ConceptChecks.id k <> i) ->
     saveCheck input (signedIn u) d = NotFound "Check" d).
Proof.
  split; intros input i Hown Hi Hnz Hno;
    destruct (lookup_owned _ _ _ Hown) as (c & L).
  - unfold saveStep. run. rewrite L, Hi, truthyNumber_nonzero by assumption.
    run. rewrite filter_none; [reflexivity|].
    intros s Hs. apply Z.eqb_neq. now apply Hno.
  - unfold saveCheck. run. rewrite L, Hi, truthyNumber_nonzero by assumption.
    run. rewrite filter_none; [reflexivity|].
    intros k Hk. apply Z.eqb_neq. now apply Hno.
Qed.

Lemma save_unknown_id_is_NotFound_witness :
  owns db_demo (User.id alice) 1 /\
  saveStep (SaveStep.mk (Some 9) 1 None None None "late" None None)
    (signedIn alice) db_demo = NotFound "Step" db_demo.
Proof.
  split; [exact alice_owns_1|].
  apply (proj1 (save_unknown_id_is_NotFound db_demo alice) _ 9);
    [exact alice_owns_1 | reflexivity | discriminate |].
  intros s [<-|[<-|[]]]; discriminate.
Defined.

(** ** updateJob on a job that is not the caller's *)

(** X13: updateJob on an id that no job of the caller has, whether no
    job has it or a job of another owner has it, fails with NOT_FOUND
    ("Job not found.") and writes nothing. *)
Theorem updateJob_not_owned_is_NotFound (d : Db) (u : User.t)
  (input : UpdateJob.input) :
  (forall j, In j (tConceptJobs d) ->
             ConceptJobs.id j = UpdateJob.id input ->
             ConceptJobs.ownerId j <> User.id u) ->
  updateJob input (signedIn u) d = NotFound "Job" d.
Proof.
  intros H. unfold updateJob. run. rewrite filter_none; [reflexivity|].
  intros j Hj. apply not_true_is_false. intros E.
  apply ConceptJobs_id_owner_true in E. destruct E as [Ei Eo].
  now apply (H j Hj).
Qed.

Lemma updateJob_not_owned_is_NotFound_witness :
  (forall j, In j (tConceptJobs db_demo) ->
             ConceptJobs.id j = 1 -> ConceptJobs.ownerId j <> User.id bob) /\
  updateJob (UpdateJob.mk 1 None (Some failed)) (signedIn bob) db_demo
  = NotFound "Job" db_demo.
Proof.
  assert (H : forall j, In j (tConceptJobs db_demo) ->
                ConceptJobs.id j = 1 -> ConceptJobs.ownerId j <> User.id bob).
  { intros j [<-|[]] _. discriminate. }
  split; [exact H|].
  exact (updateJob_not_owned_is_NotFound db_demo bob
           (UpdateJob.mk 1 None (Some failed)) H).
Defined.

(** ** Saving a new step or check, and reading it back *)

(** X14: saveStep without an id (or with id 0) on a concept [c] of the
    caller stores a new step after the stored ones, under an id above
    every stored id, with the given content and texts, stepNumber 1 and
    stepType "other" unless given; getConceptWithDetails on [c] then
    returns [c], its earlier steps followed by the new one, and its
    checks as they were. *)
Theorem saveStep_insert_then_get (d : Db) (u : User.t) (c : Concepts.row)
  (input : SaveStep.input) :
  wf d -> In c (tConcepts d) -> Concepts.ownerId c = User.id u ->
  SaveStep.conceptId input = Concepts.id c ->
  truthyNumber (SaveStep.id input) = None ->
  stepNumber_valid input ->
  exists s d',
    saveStep input (signedIn u) d = (Ok (Some s), d') /\
    tConceptSteps d' = tConceptSteps d ++ [s] /\
    (forall r, In r (tConceptSteps d) ->
               ConceptSteps.id r < ConceptSteps.id s) /\
    ConceptSteps.conceptId s = Concepts.id c /\
    ConceptSteps.stepNumber s =
      match SaveStep.stepNumber input with
      | Some n => n
      | None => 1
      end /\
    ConceptSteps.stepType s =
      match SaveStep.stepType input with
      | Some t => t
      | None => st_other
      end /\
    ConceptSteps.heading s = SaveStep.heading input /\
    ConceptSteps.content s = SaveStep.content input /\
    ConceptSteps.example s = SaveStep.example input /\
    ConceptSteps.analogy s = SaveStep.analogy input /\
    getConceptWithDetails (Concepts.id c) (signedIn u) d'
    = (Ok (mkDetails c
             (filter (ConceptSteps_concept (Concepts.id c)) (tConceptSteps d)
              ++ [s])
             (filter (ConceptChecks_concept (Concepts.id c))
                (tConceptChecks d))), d').
Proof.
  intros W Hc Ho Hi T _.
  pose proof (lookup_concept d (User.id u) c W Hc Ho) as L.
  pose proof (has_id_of_lookup _ _ _ _ L) as F.
  eexists. eexists. split.
  - unfold saveStep. run. rewrite Hi, L, T. run.
    unfold ConceptSteps_references.
    cbn [ConceptSteps.conceptId ConceptSteps.fresh Step_baseValues
         ConceptSteps.v_conceptId].
    rewrite Hi, F. reflexivity.
  - split; [reflexivity|]. split.
    { intros r Hr. cbn [ConceptSteps.id ConceptSteps.fresh].
      apply nextId_above. now apply in_map. }
    split; [exact Hi|]. repeat (split; [reflexivity|]).
    unfold getConceptWithDetails. run.
    cbn [tConcepts]. rewrite L. cbv beta iota.
    cbn [tConceptSteps tConceptChecks]. rewrite filter_app.
    cbn [filter]. unfold ConceptSteps_concept at 2.
    cbn [ConceptSteps.conceptId ConceptSteps.fresh Step_baseValues
         ConceptSteps.v_conceptId].
    now rewrite Hi, Z.eqb_refl.
Qed.

Lemma saveStep_insert_then_get_witness :
  wf db_demo /\ In concept_1 (tConcepts db_demo) /\
  stepNumber_valid (SaveStep.mk None 1 (Some 2) None None "more" None None) /\
  exists s d',
    saveStep (SaveStep.mk None 1 (Some 2) None None "more" None None)
      (signedIn alice) db_demo = (Ok (Some s), d') /\
    ConceptSteps.stepNumber s = 2 /\ ConceptSteps.stepType s = st_other.
Proof.
  assert (Hin : In concept_1 (tConcepts db_demo)) by (left; reflexivity).
  assert (V : stepNumber_valid
                (SaveStep.mk None 1 (Some 2) None None "more" None None)).
  { intros n E. injection E as <-. unfold MAX_SAFE_INTEGER. lia. }
  split; [exact wf_db_demo | split; [exact Hin | split; [exact V|]]].
  destruct (saveStep_insert_then_get db_demo alice concept_1
              (SaveStep.mk None 1 (Some 2) None None "more" None None)
              wf_db_demo Hin eq_refl eq_refl eq_refl V)
    as (s & d' & E & _ & _ & _ & Hn & Ht & _).
  exists s, d'. split; [exact E | split; [exact Hn | exact Ht]].
Defined.

(** X15: saveCheck without an id (or with id 0) on a concept [c] of
    the caller stores a new check after the stored ones, under an id
    above every stored id, with the given question, type
    "single_choice" unless given, and options and correctAnswer null
    unless given; getConceptWithDetails on [c] then returns [c], its
    steps as they were, and its earlier checks followed by the new
    one. *)
Theorem saveCheck_insert_then_get (d : Db) (u : User.t) (c : Concepts.row)
  (input : SaveCheck.input) :
  wf d -> In c (tConcepts d) -> Concepts.ownerId c = User.id u ->
  SaveCheck.conceptId input = Concepts.id c ->
  truthyNumber (SaveCheck.id input) = None ->
  exists k d',
    saveCheck input (signedIn u) d = (Ok (Some k), d') /\
    tConceptChecks d' = tConceptChecks d ++ [k] /\
    (forall r, In r (tConceptChecks d) ->
               ConceptChecks.id r < ConceptChecks.id k) /\
    ConceptChecks.conceptId k = Concepts.id c /\
    ConceptChecks.question k = SaveCheck.question input /\
    ConceptChecks.type k =
      match SaveCheck.type input with
      | Some t => t
      | None => single_choice
      end /\
    ConceptChecks.options k =
      match SaveCheck.options input with
      | Some v => v
      | None => JNull
      end /\
    ConceptChecks.correctAnswer k =
      match SaveCheck.correctAnswer input with
      | Some v => v
      | None => JNull
      end /\
    ConceptChecks.explanation k = SaveCheck.explanation input /\
    getConceptWithDetails (Concepts.id c) (signedIn u) d'
    = (Ok (mkDetails c
             (filter (ConceptSteps_concept (Concepts.id c)) (tConceptSteps d))
             (filter (ConceptChecks_concept (Concepts.id c)) (tConceptChecks d)
              ++ [k])), d').
Proof.
  intros W Hc Ho Hi T.
  pose proof (lookup_concept d (User.id u) c W Hc Ho) as L.
  pose proof (has_id_of_lookup _ _ _ _ L) as F.
  eexists. eexists. split.
  - unfold saveCheck. run. rewrite Hi, L, T. run.
    unfold ConceptChecks_references.
    cbn [ConceptChecks.conceptId ConceptChecks.fresh Check_baseValues
         ConceptChecks.v_conceptId].
    rewrite Hi, F. reflexivity.
  - split; [reflexivity|]. split.
    { intros r Hr. cbn [ConceptChecks.id ConceptChecks.fresh].
      apply nextId_above. now apply in_map. }
    split; [exact Hi|]. repeat (split; [reflexivity|]).
    unfold getConceptWithDetails. run.
    cbn [tConcepts]. rewrite L. cbv beta iota.
    cbn [tConceptSteps tConceptChecks]. rewrite filter_app.
    cbn [filter]. unfold ConceptChecks_concept at 2.
    cbn [ConceptChecks.conceptId ConceptChecks.fresh Check_baseValues
         ConceptChecks.v_conceptId].
    now rewrite Hi, Z.eqb_refl.
Qed.

Lemma saveCheck_insert_then_get_witness :
  wf db_demo /\ In concept_1 (tConcepts db_demo) /\
  exists k d',
    saveCheck (SaveCheck.mk None 1 "And O(n)?" None None None None)
      (signedIn alice) db_demo = (Ok (Some k), d') /\
    ConceptChecks.conceptId k = 1 /\ ConceptChecks.type k = single_choice.
Proof.
  assert (Hin : In concept_1 (tConcepts db_demo)) by (left; reflexivity).
  split; [exact wf_db_demo | split; [exact Hin|]].
  destruct (saveCheck_insert_then_get db_demo alice concept_1
              (SaveCheck.mk None 1 "And O(n)?" None None None None)
              wf_db_demo Hin eq_refl eq_refl eq_refl)
    as (k & d' & E & _ & _ & Hc & _ & Ht & _).
  exists k, d'. split; [exact E | split; [exact Hc | exact Ht]].
Defined.

(** ** saveCheck on a stored check *)

(** X16: for a stored check [k] whose conceptId is the supplied
    conceptId of a concept of the caller, saveCheck with the id of [k]
    rewrites that row in place and returns it: the question is the
    supplied one, the type the supplied one or "single_choice", and
    options, correctAnswer and explanation are the supplied values
    where they are supplied and stay as stored where they are omitted;
    id, conceptId and createdAt stay. *)
Theorem saveCheck_overwrites (d : Db) (u : User.t) (k : ConceptChecks.row)
  (input : SaveCheck.input) :
  wf d ->
  owns d (User.id u) (SaveCheck.conceptId input) ->
  In k (tConceptChecks d) ->
  ConceptChecks.conceptId k = SaveCheck.conceptId input ->
  SaveCheck.id input = Some (ConceptChecks.id k) ->
  exists k',
    saveCheck input (signedIn u) d
    = (Ok (Some k'),
       store ConceptChecks_table d
         (replace_by ConceptChecks.id (ConceptChecks.id k) k'
            (tConceptChecks d))) /\
    check_saved_as input k k'.
Proof.
  intros W Hown Hk Hc Hi.
  destruct (wf_ConceptChecks d W) as (ND & B).
  destruct (lookup_owned _ _ _ Hown) as (c & L).
  pose proof (ids_ok_nonzero ConceptChecks.id _ k (wf_ConceptChecks d W) Hk)
    as Hnz.
  exists (ConceptChecks.apply (Check_baseValues input) k). split.
  - unfold saveCheck. run. rewrite L, Hi, truthyNumber_nonzero by assumption.
    run. rewrite (lookup_check d k W Hk), Hc, Z.eqb_refl.
    cbn [negb]. cbv beta iota.
    rewrite updateRef_ConceptChecks by exact (has_id_of_lookup _ _ _ _ L).
    run.
    assert (Hby : forall x, In x (tConceptChecks d) ->
                    ConceptChecks_id (ConceptChecks.id k) x = true ->
                    ConceptChecks.id x = ConceptChecks.id k).
    { intros x _ Hx. now apply Z.eqb_eq in Hx. }
    rewrite (returning_unique ConceptChecks.id _ k _ ND Hk (Z.eqb_refl _) Hby).
    now rewrite (update_unique ConceptChecks.id _ k _ ND Hk (Z.eqb_refl _) Hby).
  - unfold check_saved_as. simpl. repeat split; auto;
      match goal with
      | |- context [match ?x with _ => _ end] => now destruct x
      end.
Qed.

Lemma saveCheck_overwrites_witness :
  wf db_demo /\
  owns db_demo (User.id alice) 1 /\
  In check_1 (tConceptChecks db_demo) /\
  exists k',
    fst (saveCheck (SaveCheck.mk (Some 1) 1 "What is O(n)?" None None None None)
           (signedIn alice) db_demo) = Ok (Some k') /\
    ConceptChecks.question k' = "What is O(n)?" /\
    ConceptChecks.type k' = single_choice /\
    ConceptChecks.explanation k' = Some "constant".
Proof.
  assert (Hin : In check_1 (tConceptChecks db_demo)) by (left; reflexivity).
  split; [exact wf_db_demo | split; [exact alice_owns_1 | split; [exact Hin|]]].
  destruct (saveCheck_overwrites db_demo alice check_1
              (SaveCheck.mk (Some 1) 1 "What is O(n)?" None None None None)
              wf_db_demo alice_owns_1 Hin eq_refl eq_refl) as (k' & E & U).
  exists k'. rewrite E. split; [reflexivity|].
  destruct U as (_ & _ & _ & Hq & Ht & _ & _ & He). auto.
Defined.

(** ** Deleting a stored step or check *)

Lemma filter_negb_by_key {R : Type} (key : R -> Z) (l : list R) (r : R)
  (p : R -> bool) :
  NoDup (map key l) -> In r l -> p r = true ->
  (forall x, In x l -> p x = true -> key x = key r) ->
  filter (fun x => negb (p x)) l = filter (fun x => negb (key x =? key r)) l.
Proof.
  intros ND Hr Hp Hk. apply filter_ext_in. intros x Hx.
  now rewrite (selected_iff key l r p ND Hr Hp Hk x Hx).
Qed.

(** X17: deleteStep (deleteCheck) with the id and the conceptId of a
    stored step (check) of a concept of the caller returns that row and
    removes it, and only it: every other step (check) stays stored, in
    the same order, and no other table changes. *)
Theorem delete_removes_one_row (d : Db) (u : User.t) :
  wf d ->
  (forall (s : ConceptSteps.row) (input : DeleteStep.input),
     In s (tConceptSteps d) ->
     owns d (User.id u) (DeleteStep.conceptId input) ->
     DeleteStep.id input = ConceptSteps.id s ->
     DeleteStep.conceptId input = ConceptSteps.conceptId s ->
     deleteStep input (signedIn u) d
     = (Ok s,
        store ConceptSteps_table d
          (filter (fun r => negb (ConceptSteps.id r =? ConceptSteps.id s))
             (tConceptSteps d))) /\
     forall r, In r (tConceptSteps d) ->
       (r <> s <->
        In r (filter (fun r => negb (ConceptSteps.id r =? ConceptSteps.id s))
                (tConceptSteps d)))) /\
  (forall (k : ConceptChecks.row) (input : DeleteCheck.input),
     In k (tConceptChecks d) ->
     owns d (User.id u) (DeleteCheck.conceptId input) ->
     DeleteCheck.id input = ConceptChecks.id k ->
     DeleteCheck.conceptId input = ConceptChecks.conceptId k ->
     deleteCheck input (signedIn u) d
     = (Ok k,
        store ConceptChecks_table d
          (filter (fun r => negb (ConceptChecks.id r =? ConceptChecks.id k))
             (tConceptChecks d))) /\
     forall r, In r (tConceptChecks d) ->
       (r <> k <->
        In r (filter (fun r => negb (ConceptChecks.id r =? ConceptChecks.id k))
                (tConceptChecks d)))).
Proof.
  intros W. split.
  - intros s input Hs Hown Hi Hc.
    destruct (wf_ConceptSteps d W) as (ND & _).
    destruct (lookup_owned _ _ _ Hown) as (c & L).
    assert (Hp : ConceptSteps_id_concept (DeleteStep.id input)
                   (DeleteStep.conceptId input) s = true).
    { unfold ConceptSteps_id_concept. now rewrite Hi, Hc, !Z.eqb_refl. }
    assert (Hk : forall x, In x (tConceptSteps d) ->
                   ConceptSteps_id_concept (DeleteStep.id input)
                     (DeleteStep.conceptId input) x = true ->
                   ConceptSteps.id x = ConceptSteps.id s).
    { intros x _ Hx. unfold ConceptSteps_id_concept in Hx.
      apply andb_true_iff in Hx. destruct Hx as [Hx _].
      apply Z.eqb_eq in Hx. congruence. }
    split.
    + unfold deleteStep. run. rewrite L. run.
      rewrite (first_filter_unique ConceptSteps.id _ _ s ND Hs Hp Hk).
      now rewrite (filter_negb_by_key ConceptSteps.id _ s _ ND Hs Hp Hk).
    + intros r Hr. rewrite filter_In, negb_true_iff, Z.eqb_neq. split.
      * intros Hne. split; trivial. intros E. apply Hne.
        now apply (unique_id ConceptSteps.id (tConceptSteps d)).
      * intros [_ Hne] ->. now apply Hne.
  - intros k input Hk0 Hown Hi Hc.
    destruct (wf_ConceptChecks d W) as (ND & _).
    destruct (lookup_owned _ _ _ Hown) as (c & L).
    assert (Hp : ConceptChecks_id_concept (DeleteCheck.id input)
                   (DeleteCheck.conceptId input) k = true).
    { unfold ConceptChecks_id_concept. now rewrite Hi, Hc, !Z.eqb_refl. }
    assert (Hk : forall x, In x (tConceptChecks d) ->
                   ConceptChecks_id_concept (DeleteCheck.id input)
                     (DeleteCheck.conceptId input) x = true ->
                   ConceptChecks.id x = ConceptChecks.id k).
    { intros x _ Hx. unfold ConceptChecks_id_concept in Hx.
      apply andb_true_iff in Hx. destruct Hx as [Hx _].
      apply Z.eqb_eq in Hx. congruence. }
    split.
    + unfold deleteCheck. run. rewrite L. run.
      rewrite (first_filter_unique ConceptChecks.id _ _ k ND Hk0 Hp Hk).
      now rewrite (filter_negb_by_key ConceptChecks.id _ k _ ND Hk0 Hp Hk).
    + intros r Hr. rewrite filter_In, negb_true_iff, Z.eqb_neq. split.
      * intros Hne. split; trivial. intros E. apply Hne.
        now apply (unique_id ConceptChecks.id (tConceptChecks d)).
      * intros [_ Hne] ->. now apply Hne.
Qed.

Lemma delete_removes_one_row_witness :
  wf db_demo /\ In step_1 (tConceptSteps db_demo) /\
  fst (deleteStep (DeleteStep.mk 1 1) (signedIn alice) db_demo) = Ok step_1.
Proof.
  assert (Hin : In step_1 (tConceptSteps db_demo)) by (left; reflexivity).
  split; [exact wf_db_demo | split; [exact Hin|]].
  destruct (proj1 (delete_removes_one_row db_demo alice wf_db_demo)
              step_1 (DeleteStep.mk 1 1) Hin alice_owns_1 eq_refl eq_refl)
    as [E _].
  now rewrite E.
Defined.

(** ** createJob, and listing the jobs afterwards *)

(** X18: a job that createJob has stored is listed: when createJob is
    given no conceptId or the id (not 0) of a concept of the caller,
    listJobs without input by the same caller returns afterwards what
    it returned before, followed by the new job, and what listJobs
    returns to any other caller is what it was. *)
Theorem createJob_then_listJobs (d : Db) (u : User.t)
  (input : CreateJob.input) :
  conceptId_accepted d (User.id u) (CreateJob.conceptId input) ->
  exists j d' js,
    createJob input (signedIn u) d = (Ok (Some j), d') /\
    listJobs None (signedIn u) d = (Ok js, d) /\
    listJobs None (signedIn u) d' = (Ok (js ++ [j]), d') /\
    forall v : User.t,
      User.id v <> User.id u ->
      fst (listJobs None (signedIn v) d') = fst (listJobs None (signedIn v) d).
Proof.
  intros H.
  assert (N : forall (x : Db) (w : User.t) f,
            truthyNumber (optChain (@None ListJobs.input) ListJobs.conceptId)
            = Some f -> owns x (User.id w) f) by (intros; discriminate).
  destruct (createJob_runs d u input H) as (j & E & Ej).
  exists j. eexists. eexists. split; [exact E|]. split; [|split].
  - apply listJobs_runs, N.
  - rewrite listJobs_runs by apply N. f_equal. f_equal.
    cbn [tConceptJobs store ConceptJobs_table]. rewrite filter_app.
    f_equal. cbn [filter].
    replace (listJobs_visible _ (User.id u) None j) with true; [reflexivity|].
    symmetry. subst j.
    unfold listJobs_visible, ConceptJobs_owner, status_matches.
    cbn. rewrite String.eqb_refl. cbn.
    destruct H as [->|(i & -> & Hnz & Hown)]; trivial.
    apply Z.eqb_neq in Hnz. rewrite Hnz. cbn.
    apply owns_b_true in Hown. unfold owns_b in Hown. cbn.
    now rewrite Hown.
  - intros v Hv. rewrite !listJobs_runs by apply N. cbn [fst]. f_equal.
    cbn [tConceptJobs store ConceptJobs_table]. rewrite filter_app.
    cbn [filter].
    replace (listJobs_visible _ (User.id v) None j) with false;
      [now rewrite app_nil_r|].
    symmetry. subst j. unfold listJobs_visible, ConceptJobs_owner. cbn.
    apply String.eqb_neq in Hv. rewrite String.eqb_sym in Hv.
    now rewrite Hv.
Qed.

Lemma createJob_then_listJobs_witness :
  conceptId_accepted db_demo (User.id alice)
    (CreateJob.conceptId (CreateJob.mk (Some 1) None None None None)) /\
  exists j d',
    createJob (CreateJob.mk (Some 1) None None None None)
      (signedIn alice) db_demo = (Ok (Some j), d') /\
    listJobs None (signedIn alice) d' = (Ok ([job_1] ++ [j]), d').
Proof.
  assert (H : conceptId_accepted db_demo (User.id alice)
                (CreateJob.conceptId
                   (CreateJob.mk (Some 1) None None None None))).
  { right. exists 1. split; [reflexivity|]. split; [discriminate|].
    exact alice_owns_1. }
  split; [exact H|].
  destruct (createJob_then_listJobs db_demo alice
              (CreateJob.mk (Some 1) None None None None) H)
    as (j & d' & js & E & E0 & E1 & _).
  exists j, d'. split; [exact E|].
  assert (Hjs : js = [job_1]).
  { assert (X : listJobs None (signedIn alice) db_demo = (Ok [job_1], db_demo))
      by reflexivity.
    rewrite X in E0. now injection E0 as <-. }
  now rewrite <- Hjs.
Defined.

(** ** listJobs, on the stores the actions produce *)




